(** * rendergitplus: classification, tree, corpus and slug functions

    A shallow embedding of [rendergitplus.py].  Python [str] values are
    lists of Unicode code points, [bytes] values are lists of octets,
    [int] is [Z] where the sign matters and [nat] for loop counters.
    Calls that may raise return a sum whose left side carries the
    exception; the disk is an explicit [FileSystem] value. *)

From Stdlib Require Import Ascii String Decimal.
From Stdlib Require Import List Bool Arith ZArith NArith Lia.
From Stdlib Require Import Permutation Sorted.
Import ListNotations.

Set Implicit Arguments.

(** ** Python strings *)

Module Py.

Definition char := N.
Definition pystr := list char.

(** An ASCII literal of the source as a code-point list. *)
Definition lit (s : string) : pystr :=
  map N_of_ascii (list_ascii_of_string s).

Definition char_eqb (a b : char) : bool := N.eqb a b.

Fixpoint str_eqb (a b : pystr) : bool :=
  match a, b with
  | [], [] => true
  | x :: a', y :: b' => char_eqb x y && str_eqb a' b'
  | _, _ => false
  end.

(** [s.startswith(p)] *)
Fixpoint startswith (s p : pystr) : bool :=
  match p, s with
  | [], _ => true
  | _ :: _, [] => false
  | x :: p', y :: s' => char_eqb x y && startswith s' p'
  end.

(** [needle in hay] on strings: substring search. *)
Fixpoint contains (needle hay : pystr) : bool :=
  startswith hay needle ||
  match hay with
  | [] => false
  | _ :: hay' => contains needle hay'
  end.

(** [sep.join(parts)] *)
Fixpoint join (sep : pystr) (parts : list pystr) : pystr :=
  match parts with
  | [] => []
  | [p] => p
  | p :: rest => p ++ sep ++ join sep rest
  end.

(** [s.split(sep)] for a one-character separator: never returns the empty
    list: the empty string splits to one empty part. *)
Fixpoint split (sep : char) (s : pystr) : list pystr :=
  match s with
  | [] => [[]]
  | c :: s' =>
      if char_eqb c sep then [] :: split sep s'
      else match split sep s' with
           | h :: t => (c :: h) :: t
           | [] => [[c]]
           end
  end.

(** [s.replace(old, new)] for a one-character [old]. *)
Definition replace (old : char) (new : pystr) (s : pystr) : pystr :=
  flat_map (fun c => if char_eqb c old then new else [c]) s.

(** [x in {a, b, ...}] for a set literal of strings. *)
Definition in_set (x : pystr) (xs : list pystr) : bool :=
  existsb (str_eqb x) xs.

(** [a <= b] on strings: lexicographic on code points. *)
Fixpoint str_leb (a b : pystr) : bool :=
  match a, b with
  | [], _ => true
  | _ :: _, [] => false
  | x :: a', y :: b' =>
      if N.ltb x y then true
      else if N.eqb x y then str_leb a' b' else false
  end.

(** [str(n)] for a non-negative [int]. *)
Fixpoint uint_digits (d : Decimal.uint) : pystr :=
  match d with
  | Nil => []
  | D0 d' => 48%N :: uint_digits d'
  | D1 d' => 49%N :: uint_digits d'
  | D2 d' => 50%N :: uint_digits d'
  | D3 d' => 51%N :: uint_digits d'
  | D4 d' => 52%N :: uint_digits d'
  | D5 d' => 53%N :: uint_digits d'
  | D6 d' => 54%N :: uint_digits d'
  | D7 d' => 55%N :: uint_digits d'
  | D8 d' => 56%N :: uint_digits d'
  | D9 d' => 57%N :: uint_digits d'
  end.

Definition str_of_nat (n : nat) : pystr := uint_digits (Nat.to_uint n).

(** ASCII-only stand-ins for [str.lower] and [str.isalnum], used to run
    the functions on concrete paths. *)
Definition ascii_lower_char (c : char) : char :=
  if (N.leb 65 c && N.leb c 90)%bool then (c + 32)%N else c.

Definition ascii_lower (s : pystr) : pystr := map ascii_lower_char s.

Definition ascii_isalnum (c : char) : bool :=
  (N.leb 48 c && N.leb c 57) || (N.leb 65 c && N.leb c 90)
  || (N.leb 97 c && N.leb c 122).

End Py.
Import Py.

(** ** Exceptions *)

Inductive exn_class : Type :=
  | FileNotFoundError
  | PermissionError
  | OSError
  | ValueError
  | JSONDecodeError
  | UnicodeDecodeError
  | AttributeError
  | RuntimeError
  | RecursionError.

(** A raised exception: its class and [str(e)]. *)
Record exn : Type := Raise { exn_cls : exn_class; exn_str : pystr }.

Definition result (A : Type) : Type := (exn + A)%type.

Definition ret {A : Type} (a : A) : result A := inr a.
Definition raise {A : Type} (e : exn) : result A := inl e.

Definition bind {A B : Type} (m : result A) (k : A -> result B) : result B :=
  match m with
  | inl e => inl e
  | inr a => k a
  end.

Notation "x <- m ;; k" := (bind m (fun x => k))
  (at level 61, m at next level, right associativity).

(** [try: body  except C: handler] for a handler guarded by a class test. *)
Definition try_except {A : Type} (body : result A)
    (catches : exn -> bool) (handler : exn -> result A) : result A :=
  match body with
  | inl e => if catches e then handler e else inl e
  | inr a => inr a
  end.

Definition is_class (c : exn_class) (e : exn) : bool :=
  match c, exn_cls e with
  | FileNotFoundError, FileNotFoundError => true
  | PermissionError, PermissionError => true
  | OSError, OSError => true
  | ValueError, ValueError => true
  | JSONDecodeError, JSONDecodeError => true
  | UnicodeDecodeError, UnicodeDecodeError => true
  | AttributeError, AttributeError => true
  | RuntimeError, RuntimeError => true
  | RecursionError, RecursionError => true
  | _, _ => false
  end.

(** [except Exception]: every class above derives from [Exception]. *)
Definition any_Exception (e : exn) : bool := true.

(** ** slugify *)

Section Slug.

Variable isalnum : char -> bool.

Definition dash : char := 45%N.
Definition underscore : char := 95%N.

(** The rule the loop is expected to apply to one character. *)
Definition slug_char (ch : char) : char :=
  if isalnum ch || N.eqb ch 45 || N.eqb ch 95 then ch else 45%N.

(** The loop of [slugify]: [out] collects one-character strings. *)
Definition slugify (path_str : pystr) : pystr :=
  let out :=
    fold_left
      (fun (out : list pystr) (ch : char) =>
         if isalnum ch || in_set [ch] [[dash]; [underscore]]
         then out ++ [[ch]]
         else out ++ [[dash]])
      path_str [] in
  join [] out.

End Slug.

(** ** Paths and the disk *)

(** A [pathlib.Path] on a POSIX system: its components below the
    file-system root. *)
Definition Path := list pystr.

Definition os_sep : char := 47%N.
Definition quote : char := 34%N.

(** [path.relative_to(root)]: strips [root]'s components, [ValueError]
    when [root] is not a prefix of [path]. *)
Fixpoint relative_to (path root : Path) : result Path :=
  match root, path with
  | [], _ => ret path
  | r :: root', p :: path' =>
      if str_eqb r p then relative_to path' root'
      else raise (Raise ValueError (lit "path is not in the subpath of root"))
  | _ :: _, [] =>
      raise (Raise ValueError (lit "path is not in the subpath of root"))
  end.

(** [str(path)] of a relative path. *)
Definition path_to_str (p : Path) : pystr :=
  match p with
  | [] => lit "."
  | _ => join [os_sep] p
  end.

(** [root / rel]: an absolute [rel] replaces [root]; empty and [.]
    components are dropped. *)
Definition path_div (root : Path) (rel : pystr) : Path :=
  let parts :=
    filter (fun c => negb (str_eqb c [] || str_eqb c (lit ".")))
           (split os_sep rel) in
  if startswith rel [os_sep] then parts else root ++ parts.

(** [path.name] *)
Definition path_name (p : Path) : pystr := last p [].

Definition bytes := list N.

(** What the disk and the repository answer: [path.stat().st_size], the
    whole content read through [path.open("rb")], [path.is_file()], which
    re-raises the errors of [stat] it does not take for a missing file,
    and the lines of [Repo(repo_root).git.ls_files()]. *)
Record FileSystem : Type := {
  fs_stat_size : Path -> result Z;
  fs_read : Path -> result bytes;
  fs_is_file : Path -> result bool;
  fs_ls_files : Path -> result (list pystr)
}.

(** The same disk with another answer of [git ls-files]. *)
Definition with_listing (fs : FileSystem) (lines : list pystr)
    : FileSystem :=
  {| fs_stat_size := fs_stat_size fs;
     fs_read := fs_read fs;
     fs_is_file := fs_is_file fs;
     fs_ls_files := fun _ => ret lines |}.

(** [path.is_file()] returned [True]. *)
Definition is_regular (fs : FileSystem) (p : Path) : bool :=
  match fs_is_file fs p with
  | inr true => true
  | _ => false
  end.

(** [set(lines)]: the distinct strings of a list. *)
Fixpoint set_of (l : list pystr) : list pystr :=
  match l with
  | [] => []
  | x :: l' => if in_set x l' then set_of l' else x :: set_of l'
  end.

Definition get_tracked_files (fs : FileSystem) (repo_root : Path)
    : result (list pystr) :=
  lines <- fs_ls_files fs repo_root ;;
  ret (set_of lines).

(** [sorted(xs, key=...)]: stable, compares keys with [leb]. *)
Section Sorted.
Variables (A K : Type) (key : A -> K) (leb : K -> K -> bool).

Fixpoint insert_sorted (x : A) (l : list A) : list A :=
  match l with
  | [] => [x]
  | y :: l' =>
      if leb (key x) (key y) then x :: l else y :: insert_sorted x l'
  end.

Fixpoint sorted (l : list A) : list A :=
  match l with
  | [] => []
  | x :: l' => insert_sorted x (sorted l')
  end.
End Sorted.

(** [enumerate(xs, start)] *)
Definition enumerate {A : Type} (start : nat) (xs : list A) : list (nat * A) :=
  combine (seq start (length xs)) xs.

(** [d.get(k)] on a dict literal. *)
Fixpoint dict_get {V : Type} (d : list (pystr * V)) (k : pystr) : option V :=
  match d with
  | [] => None
  | (k', v) :: d' => if str_eqb k k' then Some v else dict_get d' k
  end.

(** ** Module constants *)

Definition BINARY_EXTENSIONS : list pystr :=
  map lit
    [".png"; ".jpg"; ".jpeg"; ".gif"; ".webp"; ".bmp"; ".svg"; ".ico";
     ".pdf"; ".zip"; ".tar"; ".gz"; ".bz2"; ".xz"; ".7z"; ".rar";
     ".mp3"; ".mp4"; ".mov"; ".avi"; ".mkv"; ".wav"; ".ogg"; ".flac";
     ".ttf"; ".otf"; ".eot"; ".woff"; ".woff2";
     ".so"; ".dll"; ".dylib"; ".class"; ".jar"; ".exe"; ".bin"]%string.

Definition MINIFIABLE_EXTENSIONS : list (pystr * pystr) :=
  [(lit ".py", lit "python"); (lit ".json", lit "json");
   (lit ".js", lit "javascript"); (lit ".css", lit "css");
   (lit ".html", lit "html"); (lit ".htm", lit "html")].

Record RenderDecision : Type := {
  include : bool;
  reason : pystr
}.

Record FileInfo : Type := {
  path : Path;
  rel : pystr;
  size : Z;
  decision : RenderDecision
}.

(** The four decisions [decide_file] constructs. *)
Definition ignored_decision : RenderDecision :=
  {| include := false; reason := lit "ignored" |}.
Definition too_large_decision : RenderDecision :=
  {| include := false; reason := lit "too_large" |}.
Definition binary_decision : RenderDecision :=
  {| include := false; reason := lit "binary" |}.
Definition ok_decision : RenderDecision :=
  {| include := true; reason := lit "ok" |}.

(** ** The tracked-file tree *)

(** A value of the nested dict: [None] for a file, a dict for a directory.
    A dict keeps its keys in insertion order. *)
#[warnings="-register-all"]
Inductive tree : Type :=
  | File : tree
  | Dir : list (pystr * tree) -> tree.

Definition dict := list (pystr * tree).

Fixpoint height (t : tree) : nat :=
  match t with
  | File => 0
  | Dir items =>
      S (fold_right (fun kv h => Nat.max (height (snd kv)) h) 0 items)
  end.

(** [node[k] = v] for a key already present: the position is kept. *)
Fixpoint dict_set (d : dict) (k : pystr) (v : tree) : dict :=
  match d with
  | [] => []
  | (k', v') :: d' =>
      if str_eqb k k' then (k', v) :: d' else (k', v') :: dict_set d' k v
  end.

(** One iteration of the outer loop of [build_git_tree], on the parts of
    one path: [setdefault] on each directory part, then on the last part.
    Descending into a name that is bound to [None] fails at the next
    [setdefault]. *)
Fixpoint insert_parts (parts : list pystr) (node : dict) : result dict :=
  match parts with
  | [] => ret node
  | [leaf] =>
      match dict_get node leaf with
      | Some _ => ret node
      | None => ret (node ++ [(leaf, File)])
      end
  | part :: rest =>
      match dict_get node part with
      | None =>
          sub <- insert_parts rest [] ;;
          ret (node ++ [(part, Dir sub)])
      | Some (Dir sub) =>
          sub' <- insert_parts rest sub ;;
          ret (dict_set node part (Dir sub'))
      | Some File =>
          raise (Raise AttributeError
                   (lit "'NoneType' object has no attribute 'setdefault'"))
      end
  end.

Definition build_tree (tracked : list pystr) : result dict :=
  fold_left
    (fun (acc : result dict) (p : pystr) =>
       tree <- acc ;; insert_parts (split 47%N p) tree)
    tracked (ret []).

Definition is_None (t : tree) : bool :=
  match t with File => true | Dir _ => false end.

(** Order on the sort keys [(kv[1] is None, kv[0].lower())]. *)
Definition key_leb (a b : bool * pystr) : bool :=
  match fst a, fst b with
  | false, true => true
  | true, false => false
  | _, _ => str_leb (snd a) (snd b)
  end.

Definition branch_last : pystr := [9492; 9472; 9472; 32]%N.
Definition branch_mid : pystr := [9500; 9472; 9472; 32]%N.
Definition extension_last : pystr := lit "    ".
Definition extension_mid : pystr := [9474; 32; 32; 32]%N.

Section Runtime.

(** Library behaviour the program relies on. *)
Variable lower : pystr -> pystr.                (* str.lower *)
Variable suffix : Path -> pystr.                (* Path.suffix *)
Variable utf8_decode : bytes -> result pystr.   (* data.decode("utf-8") *)
Variable decode_replace : bytes -> pystr.       (* errors="replace" *)

(** The optional minifier modules: [None] when the import failed. *)
Variable python_minifier : option (pystr -> result pystr).
Variable rjsmin : option (pystr -> result pystr).
Variable rcssmin : option (pystr -> result pystr).
Variable htmlmin : option (pystr -> result pystr).

Variable json_value : Type.
Variable json_loads : pystr -> result json_value.
Variable json_dumps : json_value -> result pystr.

Definition looks_binary (fs : FileSystem) (path : Path) : result bool :=
  if in_set (lower (suffix path)) BINARY_EXTENSIONS then ret true
  else
    try_except
      (whole <- fs_read fs path ;;
       let data := firstn (N.to_nat 8192) whole in
       if existsb (N.eqb 0) data then ret true
       else
         _ <- utf8_decode data ;;
         ret false)
      any_Exception
      (fun _ => ret true).

Definition is_type (minify_type : option pystr) (name : string) : bool :=
  match minify_type with
  | Some t => str_eqb t (lit name)
  | None => false
  end.

(** A module object is truthy, [None] is not. *)
Definition available (m : option (pystr -> result pystr)) : bool :=
  match m with Some _ => true | None => false end.

Definition call (m : option (pystr -> result pystr)) (text : pystr)
    : result pystr :=
  match m with
  | Some minify => minify text
  | None =>
      raise (Raise AttributeError
               (lit "'NoneType' object has no attribute 'minify'"))
  end.

(** [minify_code]: the [try] body either returns a value ([Some]) or
    falls through to the final [return text] ([None]). *)
Definition minify_code (text ext : pystr) : result pystr :=
  let minify_type := dict_get MINIFIABLE_EXTENSIONS (lower ext) in
  returned <-
    try_except
      (if is_type minify_type "python" && available python_minifier then
         out <- call python_minifier text ;; ret (Some out)
       else if is_type minify_type "javascript" && available rjsmin then
         out <- call rjsmin text ;; ret (Some out)
       else if is_type minify_type "css" && available rcssmin then
         out <- call rcssmin text ;; ret (Some out)
       else if is_type minify_type "html" && available htmlmin then
         out <- call htmlmin text ;; ret (Some out)
       else if is_type minify_type "json" then
         try_except
           (parsed <- json_loads text ;;
            out <- json_dumps parsed ;;
            ret (Some out))
           (is_class JSONDecodeError)
           (fun _ => ret (Some text))
       else ret None)
      any_Exception
      (fun _ => ret None) ;;
  match returned with
  | Some out => ret out
  | None => ret text
  end.

(** The module that [minify_code] hands a minify type to; [json] is
    served by the built-in reader and has none. *)
Definition module_for (name : pystr)
    : option (option (pystr -> result pystr)) :=
  if str_eqb name (lit "python") then Some python_minifier
  else if str_eqb name (lit "javascript") then Some rjsmin
  else if str_eqb name (lit "css") then Some rcssmin
  else if str_eqb name (lit "html") then Some htmlmin
  else None.

(** What the built-in JSON branch is expected to yield: the dumped value,
    or the text when reading or dumping fails. *)
Definition json_outcome (text : pystr) : pystr :=
  match json_loads text with
  | inl _ => text
  | inr parsed =>
      match json_dumps parsed with
      | inl _ => text
      | inr out => out
      end
  end.

Definition is_ignored (rel : pystr) : bool :=
  contains (lit "/.git/") (lit "/" ++ rel ++ lit "/")
  || startswith rel (lit ".git/").

Definition decide_file (fs : FileSystem) (path repo_root : Path)
    (max_bytes : Z) : result FileInfo :=
  relative <- relative_to path repo_root ;;
  let rel := replace os_sep (lit "/") (path_to_str relative) in
  size <-
    try_except (fs_stat_size fs path)
      (is_class FileNotFoundError)
      (fun _ => ret 0%Z) ;;
  if is_ignored rel then
    ret (Build_FileInfo path rel size (Build_RenderDecision false (lit "ignored")))
  else if (size >? max_bytes)%Z then
    ret (Build_FileInfo path rel size (Build_RenderDecision false (lit "too_large")))
  else
    binary <- looks_binary fs path ;;
    if binary then
      ret (Build_FileInfo path rel size (Build_RenderDecision false (lit "binary")))
    else
      ret (Build_FileInfo path rel size (Build_RenderDecision true (lit "ok"))).

(** [classified fs root max_bytes cands infos]: [infos] are the records
    [decide_file] returns for the candidates [cands], one by one. *)
Definition classified (fs : FileSystem) (repo_root : Path) (max_bytes : Z)
    : list Path -> list FileInfo -> Prop :=
  Forall2 (fun p info => decide_file fs p repo_root max_bytes = ret info).

(** The loop of [collect_files] over the elements [tracked] of the set
    returned by [get_tracked_files], in whatever order the set lists
    them. *)
Definition collect_tracked (fs : FileSystem) (repo_root : Path)
    (max_bytes : Z) (tracked : list pystr) : result (list FileInfo) :=
  fold_left
    (fun (acc : result (list FileInfo)) (rel : pystr) =>
       infos <- acc ;;
       let p := path_div repo_root rel in
       is_file <- fs_is_file fs p ;;
       if is_file then
         info <- decide_file fs p repo_root max_bytes ;;
         ret (infos ++ [info])
       else ret infos)
    (sorted (fun s : pystr => s) str_leb tracked)
    (ret []).

Definition collect_files (fs : FileSystem) (repo_root : Path)
    (max_bytes : Z) : result (list FileInfo) :=
  tracked <- get_tracked_files fs repo_root ;;
  collect_tracked fs repo_root max_bytes tracked.

(** The sorted items of one level, as [walk] enumerates them. *)
Definition sorted_items (node : dict) : dict :=
  sorted (fun kv : pystr * tree => (is_None (snd kv), lower (fst kv)))
         key_leb node.

(** [walk_lines] gives the lines that [walk] appends when the recursion
    limit is not reached; it is the yardstick for [walk] below.  The body
    of its loop over the enumerated items; each item carries the
    recursive call on its own subtree. *)
Fixpoint walk_lines_loop (len_items : nat) (prefix : pystr)
    (rest : list (nat * (pystr * tree * (pystr -> list pystr -> list pystr))))
    (lines : list pystr) : list pystr :=
  match rest with
  | [] => lines
  | (i, (name, subtree, walk_subtree)) :: rest' =>
      let last := Nat.eqb i (len_items - 1) in
      let branch := if last then branch_last else branch_mid in
      let lines := lines ++ [prefix ++ branch ++ name] in
      let lines :=
        if negb (is_None subtree) then
          let extension := if last then extension_last else extension_mid in
          walk_subtree (prefix ++ extension) lines
        else lines in
      walk_lines_loop len_items prefix rest' lines
  end.

(** The recursive call is attached to every item before sorting, which
    keeps the recursion structural; [walk_Dir] below gives the equation
    in the shape of the source. *)
Fixpoint walk_lines (node : tree) (prefix : pystr) (lines : list pystr)
    {struct node} : list pystr :=
  match node with
  | File => lines
  | Dir d =>
      let items :=
        sorted
          (fun it : pystr * tree * (pystr -> list pystr -> list pystr) =>
             (is_None (snd (fst it)), lower (fst (fst it))))
          key_leb
          (map (fun kv => (kv, walk_lines (snd kv))) d) in
      walk_lines_loop (List.length items) prefix (enumerate 0 items) lines
  end.

(** [walk_lines] only appends to [lines]. *)
Definition appends (t : tree) : Prop :=
  forall prefix lines,
    walk_lines t prefix lines = lines ++ walk_lines t prefix [].

(** The lines expected for one enumerated child of a level: its own
    line, then the lines of its subtree. *)
Definition child_lines (len_items : nat) (prefix : pystr)
    (entry : nat * (pystr * tree)) : list pystr :=
  let last := Nat.eqb (fst entry) (len_items - 1) in
  (prefix ++ (if last then branch_last else branch_mid) ++ fst (snd entry))
  :: walk_lines (snd (snd entry))
       (prefix ++ (if last then extension_last else extension_mid)) [].

(** Case-insensitive alphabetical order on the items of one level. *)
Definition lower_le (a b : pystr * tree) : Prop :=
  str_leb (lower (fst a)) (lower (fst b)) = true.

(** The [for] loop of [walk]: the state is the list [lines] the closure
    appends to, together with the exception that ended the loop, if
    any.  [walk_subtree] is the recursive call. *)
Fixpoint walk_loop
    (walk_subtree : dict -> pystr -> list pystr -> list pystr * option exn)
    (len_items : nat) (prefix : pystr)
    (rest : list (nat * (pystr * tree)))
    (lines : list pystr) : list pystr * option exn :=
  match rest with
  | [] => (lines, None)
  | (i, (name, subtree)) :: rest' =>
      let last := Nat.eqb i (len_items - 1) in
      let branch := if last then branch_last else branch_mid in
      let lines := lines ++ [prefix ++ branch ++ name] in
      match subtree with
      | Dir sub =>
          let extension := if last then extension_last else extension_mid in
          match walk_subtree sub (prefix ++ extension) lines with
          | (lines, None) => walk_loop walk_subtree len_items prefix rest' lines
          | (lines, Some e) => (lines, Some e)
          end
      | File => walk_loop walk_subtree len_items prefix rest' lines
      end
  end.

(** [walk].  [frames] is the number of nested Python calls the
    interpreter still allows at the call: the call itself takes one, and
    so does, while it runs, every call of the sort key.  A call that
    would go beyond raises [RecursionError] and leaves [lines] as they
    are. *)
Fixpoint walk (frames : nat) (node : dict) (prefix : pystr)
    (lines : list pystr) : list pystr * option exn :=
  match frames with
  | O => (lines,
          Some (Raise RecursionError (lit "maximum recursion depth exceeded")))
  | S frames' =>
      match node, frames' with
      | _ :: _, O =>
          (lines,
           Some (Raise RecursionError
                   (lit "maximum recursion depth exceeded while calling a Python object")))
      | _, _ =>
          let items := sorted_items node in
          walk_loop (walk frames') (List.length items) prefix
            (enumerate 0 items) lines
      end
  end.

(** The frames a call of [walk] on a tree takes. *)
Fixpoint frames_needed (t : tree) : nat :=
  match t with
  | File => 0
  | Dir items =>
      S (fold_right (fun kv n => Nat.max (frames_needed (snd kv)) n)
           (match items with [] => 0 | _ :: _ => 1 end) items)
  end.

Definition build_git_tree (fs : FileSystem) (frames : nat)
    (repo_root : Path) : result pystr :=
  tracked <- fs_ls_files fs repo_root ;;
  tree <- build_tree tracked ;;
  let lines := [path_name repo_root] in
  match walk frames tree [] lines with
  | (lines, None) => ret (join [10%N] lines)
  | (_, Some e) => raise e
  end.

Definition read_text (fs : FileSystem) (path : Path) : result pystr :=
  data <- fs_read fs path ;;
  ret (decode_replace data).

(** The content line expected for one record: the text of the file,
    minified on request, or the failure message. *)
Definition document_content (fs : FileSystem) (minify : bool)
    (i : FileInfo) : pystr :=
  match read_text fs (path i) with
  | inl e => lit "Failed to read: " ++ exn_str e
  | inr text =>
      if minify then
        match minify_code text (suffix (path i)) with
        | inl e => lit "Failed to read: " ++ exn_str e
        | inr out => out
        end
      else text
  end.

(** The six lines expected for the document with a given index. *)
Definition document_lines (fs : FileSystem) (minify : bool)
    (entry : nat * FileInfo) : list pystr :=
  [ lit "<document index=" ++ [quote] ++ str_of_nat (fst entry)
      ++ [quote] ++ lit ">";
    lit "<source>" ++ rel (snd entry) ++ lit "</source>";
    lit "<document_content>";
    document_content fs minify (snd entry);
    lit "</document_content>";
    lit "</document>" ].

(** The lines list of [generate_cxml_text] before the final join. *)
Definition generate_cxml_lines (fs : FileSystem) (infos : list FileInfo)
    (minify : bool) : result (list pystr) :=
  let lines := [lit "<documents>"] in
  let rendered := filter (fun i => include (decision i)) infos in
  lines <-
    fold_left
      (fun (acc : result (list pystr)) (entry : nat * FileInfo) =>
         lines <- acc ;;
         let (index, i) := entry in
         let lines :=
           lines ++ [lit "<document index=" ++ [quote] ++ str_of_nat index
                     ++ [quote] ++ lit ">"] in
         let lines := lines ++ [lit "<source>" ++ rel i ++ lit "</source>"] in
         let lines := lines ++ [lit "<document_content>"] in
         lines <-
           try_except
             (text <- read_text fs (path i) ;;
              text <- (if minify then minify_code text (suffix (path i))
                       else ret text) ;;
              ret (lines ++ [text]))
             any_Exception
             (fun e => ret (lines ++ [lit "Failed to read: " ++ exn_str e])) ;;
         let lines := lines ++ [lit "</document_content>"] in
         ret (lines ++ [lit "</document>"]))
      (enumerate 1 rendered)
      (ret lines) ;;
  ret (lines ++ [lit "</documents>"]).

Definition generate_cxml_text (fs : FileSystem) (infos : list FileInfo)
    (minify : bool) : result pystr :=
  lines <- generate_cxml_lines fs infos minify ;;
  ret (join [10%N] lines).

End Runtime.

(** The statistics block at the top of [build_html]. *)
Record Stats : Type := {
  rendered : list FileInfo;
  skipped_binary : list FileInfo;
  skipped_large : list FileInfo;
  skipped_ignored : list FileInfo;
  total_files : nat
}.

Definition build_html_stats (infos : list FileInfo) : Stats :=
  let rendered := filter (fun i => include (decision i)) infos in
  let skipped_binary :=
    filter (fun i => str_eqb (reason (decision i)) (lit "binary")) infos in
  let skipped_large :=
    filter (fun i => str_eqb (reason (decision i)) (lit "too_large")) infos in
  let skipped_ignored :=
    filter (fun i => str_eqb (reason (decision i)) (lit "ignored")) infos in
  Build_Stats rendered skipped_binary skipped_large skipped_ignored
    (List.length rendered + List.length skipped_binary
     + List.length skipped_large + List.length skipped_ignored).

(** In how many of the four lists of [build_html] a record lands. *)
Definition hits (i : FileInfo) : nat :=
  Nat.b2n (include (decision i))
  + Nat.b2n (str_eqb (reason (decision i)) (lit "binary"))
  + Nat.b2n (str_eqb (reason (decision i)) (lit "too_large"))
  + Nat.b2n (str_eqb (reason (decision i)) (lit "ignored")).

(** ** The numbers printed by main *)

(** [rendered_count] and [skipped_count] of [main], after [len(infos)]. *)
Definition main_counts (infos : list FileInfo) : nat * nat * nat :=
  let rendered_count :=
    list_sum (map (fun _ => 1) (filter (fun i => include (decision i)) infos)) in
  let skipped_count := List.length infos - rendered_count in
  (List.length infos, rendered_count, skipped_count).

(** ** derive_temp_output_path *)

(** [s.rstrip(c)] for a one-character set. *)
Fixpoint rstrip (c : char) (s : pystr) : pystr :=
  match s with
  | [] => []
  | x :: s' =>
      match rstrip c s' with
      | [] => if char_eqb x c then [] else [x]
      | r => x :: r
      end
  end.

(** [s.endswith(suffix)] *)
Definition endswith (s suffix : pystr) : bool :=
  startswith (rev s) (rev suffix).

(** [s.removesuffix(suffix)] *)
Definition removesuffix (suffix s : pystr) : pystr :=
  if endswith s suffix
  then firstn (List.length s - List.length suffix) s
  else s.

Section TempPath.

(** The calls into the system, each of which may raise:
    [Path(repo_url).is_dir()], [Path(repo_url).resolve().name] and
    [Path(tempfile.gettempdir())]. *)
Variable is_dir : pystr -> result bool.
Variable resolved_name : pystr -> result pystr.
Variable gettempdir : result Path.

Definition derive_temp_output_path (repo_url : pystr) (for_llm : bool)
    : result Path :=
  is_directory <- is_dir repo_url ;;
  repo_name <-
    (if is_directory : bool then resolved_name repo_url
     else
       let parts := split 47%N (rstrip 47%N repo_url) in
       ret (if Nat.leb 2 (List.length parts)
            then removesuffix (lit ".git") (last parts [])
            else lit "repo")) ;;
  let suffix := if for_llm then lit ".txt" else lit ".html" in
  tempdir <- gettempdir ;;
  ret (path_div tempdir (repo_name ++ suffix)).

End TempPath.

(** ** Reading the tree back *)

(** The value found by following the parts of a path through the nested
    dicts. *)
Fixpoint lookup_path (parts : list pystr) (node : dict) : option tree :=
  match parts with
  | [] => None
  | [leaf] => dict_get node leaf
  | part :: rest =>
      match dict_get node part with
      | Some (Dir sub) => lookup_path rest sub
      | _ => None
      end
  end.

(** The number of entries of a tree, over all its levels. *)
Fixpoint count_entries (t : tree) : nat :=
  match t with
  | File => 0
  | Dir items =>
      fold_right (fun kv n => S (count_entries (snd kv)) + n) 0 items
  end.

(** ** The sections and skip lists of build_html *)

Definition MARKDOWN_EXTENSIONS : list pystr :=
  map lit [".md"; ".markdown"; ".mdown"; ".mkd"; ".mkdn"]%string.

Section Html.

Variable isalnum : char -> bool.
Variable lower : pystr -> pystr.
Variable suffix : Path -> pystr.
Variable decode_replace : bytes -> pystr.
Variable html_escape : pystr -> pystr.   (* html.escape *)
Variable bytes_human : Z -> pystr.       (* bytes_human, on floats *)

(** Pygments. *)
Variable lexer : Type.
Variable get_lexer_for_filename : pystr -> result lexer.
Variable TextLexer : lexer.
Variable MarkdownLexer : result lexer.   (* import and construction *)
Variable highlight : pystr -> lexer -> result pystr.

Definition highlight_code (text filename : pystr) : result pystr :=
  lexer <-
    try_except (get_lexer_for_filename filename)
      any_Exception
      (fun _ => ret TextLexer) ;;
  highlight text lexer.

Definition highlight_div (code_html : pystr) : pystr :=
  lit "<div class=" ++ [quote] ++ lit "highlight" ++ [quote] ++ lit ">"
  ++ code_html ++ lit "</div>".

Definition error_block (e : exn) : pystr :=
  lit "<pre class=" ++ [quote] ++ lit "error" ++ [quote]
  ++ lit ">Failed to render: " ++ html_escape (exn_str e) ++ lit "</pre>".

(** The [try] statement that computes [body_html] for one record. *)
Definition render_body (fs : FileSystem) (i : FileInfo) : result pystr :=
  let ext := lower (suffix (path i)) in
  try_except
    (text <- read_text decode_replace fs (path i) ;;
     if in_set ext MARKDOWN_EXTENSIONS then
       lexer <- MarkdownLexer ;;
       code_html <- highlight text lexer ;;
       ret (highlight_div code_html)
     else
       code_html <- highlight_code text (rel i) ;;
       ret (highlight_div code_html))
    any_Exception
    (fun e => ret (error_block e)).

(** The string appended to [sections] for one record. *)
Definition section_html (i : FileInfo) (body_html : pystr) : pystr :=
  let anchor := slugify isalnum (rel i) in
  [10%N]
  ++ lit "<section class=" ++ [quote] ++ lit "file-section" ++ [quote]
  ++ lit " id=" ++ [quote] ++ lit "file-" ++ anchor ++ [quote] ++ lit ">"
  ++ [10%N]
  ++ lit "  <h2>" ++ html_escape (rel i) ++ lit " <span class=" ++ [quote]
  ++ lit "muted" ++ [quote] ++ lit ">(" ++ bytes_human (size i)
  ++ lit ")</span></h2>" ++ [10%N]
  ++ lit "  <div class=" ++ [quote] ++ lit "file-body" ++ [quote] ++ lit ">"
  ++ body_html ++ lit "</div>" ++ [10%N]
  ++ lit "  <div class=" ++ [quote] ++ lit "back-top" ++ [quote]
  ++ lit "><a href=" ++ [quote] ++ lit "#top" ++ [quote] ++ lit ">"
  ++ [8593%N] ++ lit " Back to top</a></div>" ++ [10%N]
  ++ lit "</section>" ++ [10%N].

(** The loop that fills [sections]. *)
Definition build_html_sections (fs : FileSystem) (infos : list FileInfo)
    : result (list pystr) :=
  let rendered := filter (fun i => include (decision i)) infos in
  fold_left
    (fun (acc : result (list pystr)) (i : FileInfo) =>
       sections <- acc ;;
       body_html <- render_body fs i ;;
       ret (sections ++ [section_html i body_html]))
    rendered (ret []).

Definition render_skip_list (title : pystr) (items : list FileInfo)
    : pystr :=
  match items with
  | [] => []
  | _ =>
      let lis :=
        map (fun i =>
               lit "<li><code>" ++ html_escape (rel i)
               ++ lit "</code> <span class=" ++ [quote] ++ lit "muted"
               ++ [quote] ++ lit ">(" ++ bytes_human (size i)
               ++ lit ")</span></li>") items in
      (lit "<details open><summary>" ++ html_escape title ++ lit " ("
       ++ str_of_nat (List.length items) ++ lit ")</summary>"
       ++ lit "<ul class=" ++ [quote] ++ lit "skip-list" ++ [quote]
       ++ lit ">" ++ [10%N])
      ++ join [10%N] lis ++ [10%N] ++ lit "</ul></details>"
  end.

(** [skipped_html] *)
Definition build_html_skipped (infos : list FileInfo) : pystr :=
  let skipped_binary :=
    filter (fun i => str_eqb (reason (decision i)) (lit "binary")) infos in
  let skipped_large :=
    filter (fun i => str_eqb (reason (decision i)) (lit "too_large")) infos in
  render_skip_list (lit "Skipped binaries") skipped_binary
  ++ render_skip_list (lit "Skipped large files") skipped_large.

End Html.

(** ** A concrete runtime and disk

    ASCII-only library functions and a small repository, on which the
    functions above can be evaluated. *)

Module Demo.

Fixpoint from_last_dot (s : pystr) : option pystr :=
  match s with
  | [] => None
  | c :: s' =>
      match from_last_dot s' with
      | Some r => Some r
      | None => if char_eqb c 46%N then Some s else None
      end
  end.

(** [Path.suffix]: from the last dot of the name, unless that dot is the
    first or the last character. *)
Definition suffix (p : Path) : pystr :=
  match path_name p with
  | [] => []
  | _ :: rest =>
      match from_last_dot rest with
      | Some [_] => []
      | Some r => r
      | None => []
      end
  end.

Definition utf8_decode (data : bytes) : result pystr :=
  if forallb (fun b => N.ltb b 128) data then ret data
  else raise (Raise UnicodeDecodeError (lit "invalid start byte")).

Definition decode_replace (data : bytes) : pystr :=
  map (fun b => if N.ltb b 128 then b else 65533%N) data.

(** A minifier that drops spaces, and one that always fails. *)
Definition strip_spaces (text : pystr) : result pystr :=
  ret (filter (fun c => negb (char_eqb c 32%N)) text).

Definition broken_minifier (text : pystr) : result pystr :=
  raise (Raise RuntimeError (lit "minifier crashed")).

(** A JSON reader that accepts only texts starting with an opening brace
    and keeps the text as its parsed value. *)
Definition json_loads (text : pystr) : result pystr :=
  if startswith text (lit "{") then ret text
  else raise (Raise JSONDecodeError (lit "Expecting value")).

Definition json_dumps (v : pystr) : result pystr :=
  ret (filter (fun c => negb (char_eqb c 32%N)) v).

Definition repo_root : Path := [lit "tmp"; lit "repo"].

Fixpoint path_eqb (a b : Path) : bool :=
  match a, b with
  | [], [] => true
  | x :: a', y :: b' => str_eqb x y && path_eqb a' b'
  | _, _ => false
  end.

Definition denied {A : Type} : result A :=
  raise (Raise PermissionError (lit "[Errno 13] Permission denied")).

Definition missing {A : Type} : result A :=
  raise (Raise FileNotFoundError (lit "[Errno 2] No such file or directory")).

(** Relative path, [stat] answer, [read] answer. *)
Definition disk : list (pystr * (result Z * result bytes)) :=
  [ (lit "README.md", (ret 5%Z, ret (lit "# hi" ++ [10%N])));
    (lit "src/a.py", (ret 6%Z, ret (lit "x = 1" ++ [10%N])));
    (lit ".git/config", (ret 60000%Z, ret [0%N; 1%N]));
    (lit "big.bin", (ret 60000%Z, ret [0%N]));
    (lit "exact.txt", (ret 51200%Z, ret (lit "full")));
    (lit "over.txt", (ret 51201%Z, ret (lit "full")));
    (lit "locked.txt", (ret 7%Z, denied));
    (lit "gone.txt", (missing, missing));
    (lit "sealed/x.txt", (denied, denied)) ].

Fixpoint find_entry (p : Path)
    (d : list (pystr * (result Z * result bytes)))
    : option (result Z * result bytes) :=
  match d with
  | [] => None
  | (rel, e) :: d' =>
      if path_eqb p (path_div repo_root rel) then Some e
      else find_entry p d'
  end.

(** The tracked files of the end-to-end scenario. *)
Definition tracked : list pystr :=
  map lit ["README.md"; "src/a.py"; ".git/config"; "big.bin"]%string.

(** [is_file] answers from [stat]: a missing file is no file, any other
    failure of [stat] is raised again. *)
Definition fs : FileSystem :=
  {| fs_stat_size p :=
       match find_entry p disk with Some e => fst e | None => missing end;
     fs_read p :=
       match find_entry p disk with Some e => snd e | None => missing end;
     fs_is_file p :=
       match find_entry p disk with
       | Some (inr _, _) => ret true
       | Some (inl e, _) =>
           if is_class FileNotFoundError e then ret false else inl e
       | None => ret false
       end;
     fs_ls_files _ := ret tracked |}.

Definition max_bytes : Z := 51200.

Definition decide (rel : string) : result FileInfo :=
  decide_file ascii_lower suffix utf8_decode fs
    (path_div repo_root (lit rel)) repo_root max_bytes.

Definition outcome (r : result FileInfo) : option (Z * bool * pystr) :=
  match r with
  | inr i => Some (size i, include (decision i), reason (decision i))
  | inl _ => None
  end.

Definition records : list FileInfo :=
  match collect_files ascii_lower suffix utf8_decode fs repo_root max_bytes
  with
  | inr infos => infos
  | inl _ => []
  end.

(** Tracked paths in the order [git ls-files] prints them. *)
Definition listing : list pystr :=
  map lit ["Makefile"; "README.md"; "docs/x.md"; "src/A.py"; "src/b.py";
           "src/lib/util.py"]%string.

(** The nested dict built from [listing]. *)
Definition tree : dict :=
  match build_tree listing with
  | inr node => node
  | inl _ => []
  end.

(** Three records marked for inclusion; the second one can no longer be
    read when the corpus is written. *)
Definition stale_records : list FileInfo :=
  [ Build_FileInfo (path_div repo_root (lit "README.md")) (lit "README.md")
      5 ok_decision;
    Build_FileInfo (path_div repo_root (lit "locked.txt")) (lit "locked.txt")
      7 ok_decision;
    Build_FileInfo (path_div repo_root (lit "src/a.py")) (lit "src/a.py")
      6 ok_decision ].

Definition cxml_lines (infos : list FileInfo) (minify : bool)
    : result (list pystr) :=
  generate_cxml_lines ascii_lower suffix decode_replace
    (Some strip_spaces) None None None json_loads json_dumps fs infos minify.

(** A disk whose files hold 8192 letters followed by [tail]. *)
Definition padded_fs (tail : bytes) : FileSystem :=
  {| fs_stat_size _ := ret 9000%Z;
     fs_read _ := ret (repeat 97%N (N.to_nat 8192) ++ tail);
     fs_is_file _ := ret true;
     fs_ls_files _ := ret [lit "notes.txt"] |}.

End Demo.

(** * Properties *)

(** ** Strings *)

Lemma char_eqb_eq (a b : char) : char_eqb a b = true <-> a = b.
Proof. unfold char_eqb. apply N.eqb_eq. Qed.

Lemma str_eqb_eq (a b : pystr) : str_eqb a b = true <-> a = b.
Proof.
  revert b. induction a as [|x a IH]; destruct b as [|y b]; simpl;
    try (split; [discriminate | discriminate]); try tauto.
  rewrite andb_true_iff, char_eqb_eq, IH.
  split; [intros [-> ->]; reflexivity | intros E; inversion E; auto].
Qed.

Lemma str_eqb_refl (a : pystr) : str_eqb a a = true.
Proof. apply str_eqb_eq. reflexivity. Qed.

Lemma join_empty_singletons (l : pystr) :
  join [] (map (fun c => [c]) l) = l.
Proof.
  induction l as [|c l IH]; [reflexivity|].
  destruct l as [|c' l]; [reflexivity|].
  change (join [] (map (fun c => [c]) (c :: c' :: l)))
    with ([c] ++ [] ++ join [] (map (fun c => [c]) (c' :: l))).
  rewrite IH. reflexivity.
Qed.

(** ** slugify *)

Section SlugFacts.

Variable isalnum : char -> bool.

Lemma in_dash_underscore (ch : char) :
  in_set [ch] [[dash]; [underscore]] = N.eqb ch 45 || N.eqb ch 95.
Proof.
  unfold in_set, dash, underscore, char_eqb; simpl.
  unfold char_eqb. rewrite !andb_true_r, orb_false_r. reflexivity.
Qed.

Lemma slugify_loop (s : pystr) (out : list pystr) :
  fold_left
    (fun (out : list pystr) (ch : char) =>
       if isalnum ch || in_set [ch] [[dash]; [underscore]]
       then out ++ [[ch]]
       else out ++ [[dash]])
    s out
  = out ++ map (fun c => [c]) (map (slug_char isalnum) s).
Proof.
  revert out. induction s as [|ch s IH]; intros out; cbn [fold_left map].
  - now rewrite app_nil_r.
  - rewrite IH. unfold slug_char at 2.
    rewrite in_dash_underscore, <- orb_assoc.
    destruct (isalnum ch || (N.eqb ch 45 || N.eqb ch 95));
      rewrite <- app_assoc; reflexivity.
Qed.

Lemma slugify_map (s : pystr) : slugify isalnum s = map (slug_char isalnum) s.
Proof.
  unfold slugify. rewrite slugify_loop. simpl.
  apply join_empty_singletons.
Qed.

Lemma slug_char_fixed (ch : char) : slug_char isalnum (slug_char isalnum ch) = slug_char isalnum ch.
Proof.
  unfold slug_char.
  destruct (isalnum ch || N.eqb ch 45 || N.eqb ch 95) eqn:E.
  - now rewrite E.
  - simpl. now rewrite orb_true_r.
Qed.

End SlugFacts.

(** C9.  [slugify] rewrites its input character by character: an
    alphanumeric character, a dash or an underscore stays as it is, any
    other character becomes one dash.  Nothing is collapsed and no case
    is changed, so the length is kept, and slugifying a slug gives the
    same slug. *)
Theorem slugify_charwise_idempotent (isalnum : char -> bool) (s : pystr) :
  slugify isalnum s
    = map (fun ch => if isalnum ch || N.eqb ch 45 || N.eqb ch 95
                     then ch else 45%N) s
  /\ List.length (slugify isalnum s) = List.length s
  /\ slugify isalnum (slugify isalnum s) = slugify isalnum s.
Proof.
  assert (M : forall t, slugify isalnum t = map (slug_char isalnum) t)
    by apply slugify_map.
  split; [apply M|]. split.
  - rewrite M. apply length_map.
  - rewrite !M, map_map. apply map_ext. intros ch. apply slug_char_fixed.
Qed.

Example slugify_path :
  slugify ascii_isalnum (lit "src/My File_v2.py") = lit "src-My-File_v2-py".
Proof. reflexivity. Qed.

(** ** minify_code *)

Section MinifyFacts.

Variable lower : pystr -> pystr.
Variables python_minifier rjsmin rcssmin htmlmin
  : option (pystr -> result pystr).
Variable json_value : Type.
Variable json_loads : pystr -> result json_value.
Variable json_dumps : json_value -> result pystr.

Let minify := minify_code lower python_minifier rjsmin rcssmin htmlmin
                json_loads json_dumps.
Let responsible := module_for python_minifier rjsmin rcssmin htmlmin.

Lemma minify_type_values (k t : pystr) :
  dict_get MINIFIABLE_EXTENSIONS k = Some t ->
  In t [lit "python"; lit "json"; lit "javascript"; lit "css"; lit "html"].
Proof.
  unfold MINIFIABLE_EXTENSIONS. cbn [dict_get].
  repeat match goal with
         | |- (if ?c then _ else _) = _ -> _ => destruct c
         end; intros E; inversion E; subst; simpl; auto 10.
Qed.

Lemma minify_code_cases (text ext : pystr) :
  minify text ext =
  ret match dict_get MINIFIABLE_EXTENSIONS (lower ext) with
      | None => text
      | Some t =>
          match responsible t with
          | Some None => text
          | Some (Some f) =>
              match f text with inl _ => text | inr out => out end
          | None => json_outcome json_loads json_dumps text
          end
      end.
Proof.
  unfold minify, minify_code, responsible, json_outcome, module_for.
  destruct (dict_get MINIFIABLE_EXTENSIONS (lower ext)) as [t|] eqn:K;
    [|reflexivity].
  apply minify_type_values in K. simpl in K.
  destruct K as [<-|[<-|[<-|[<-|[<-|[]]]]]]; cbn.
  - destruct python_minifier as [f|]; cbn; [destruct (f text)|]; reflexivity.
  - destruct (json_loads text) as [e|parsed]; cbn.
    + destruct e as [[] msg]; reflexivity.
    + destruct (json_dumps parsed) as [e|out]; cbn; [|reflexivity].
      destruct e as [[] msg]; reflexivity.
  - destruct rjsmin as [f|]; cbn; [destruct (f text)|]; reflexivity.
  - destruct rcssmin as [f|]; cbn; [destruct (f text)|]; reflexivity.
  - destruct htmlmin as [f|]; cbn; [destruct (f text)|]; reflexivity.
Qed.

Lemma unsupported_extension (k : pystr) :
  in_set k (map lit [".py"; ".json"; ".js"; ".css"; ".html"; ".htm"]%string)
    = false ->
  dict_get MINIFIABLE_EXTENSIONS k = None.
Proof.
  unfold in_set, MINIFIABLE_EXTENSIONS. cbn [map existsb dict_get].
  intros H. repeat (apply orb_false_elim in H; destruct H as [?E H]).
  now rewrite E, E0, E1, E2, E3, E4.
Qed.

End MinifyFacts.

(** C5.  [minify_code] never raises, and returns the text it was given
    whenever the lower-cased extension is none of [.py], [.json], [.js],
    [.css], [.html], [.htm], whenever the module in charge of the
    extension was not imported, whenever that module raises, and whenever
    the JSON reader rejects the text.  In every case the result is the
    whole text or the whole output of one minifier. *)
Theorem minify_code_falls_back_to_text
    (lower : pystr -> pystr)
    (python_minifier rjsmin rcssmin htmlmin : option (pystr -> result pystr))
    (json_value : Type)
    (json_loads : pystr -> result json_value)
    (json_dumps : json_value -> result pystr)
    (text ext : pystr) :
  let run := minify_code lower python_minifier rjsmin rcssmin htmlmin
               json_loads json_dumps text ext in
  let kind := dict_get MINIFIABLE_EXTENSIONS (lower ext) in
  let responsible := module_for python_minifier rjsmin rcssmin htmlmin in
  (in_set (lower ext)
     (map lit [".py"; ".json"; ".js"; ".css"; ".html"; ".htm"]%string) = false ->
   run = ret text)
  /\ (forall t, kind = Some t -> responsible t = Some None -> run = ret text)
  /\ (forall t f e, kind = Some t -> responsible t = Some (Some f) ->
        f text = inl e -> run = ret text)
  /\ (forall e, kind = Some (lit "json") -> json_loads text = inl e ->
        run = ret text)
  /\ (exists out, run = ret out /\
        (out = text
         \/ (exists t f, kind = Some t /\ responsible t = Some (Some f)
                         /\ f text = inr out)
         \/ (exists parsed, kind = Some (lit "json")
                            /\ json_loads text = inr parsed
                            /\ json_dumps parsed = inr out))).
Proof.
  intros run kind responsible.
  assert (C := minify_code_cases lower python_minifier rjsmin rcssmin htmlmin
                 json_loads json_dumps text ext).
  fold run kind responsible in C.
  repeat split.
  - intros U. apply unsupported_extension in U. fold kind in U.
    now rewrite C, U.
  - intros t K R. now rewrite C, K, R.
  - intros t f e K R F. now rewrite C, K, R, F.
  - intros e K L. rewrite C, K. cbn. unfold json_outcome. now rewrite L.
  - rewrite C. eexists; split; [reflexivity|].
    destruct kind as [t|] eqn:K; [|now left].
    destruct (responsible t) as [[f|]|] eqn:R; [| now left |].
    + destruct (f text) as [e|out] eqn:F; [now left|].
      right; left. now exists t, f.
    + unfold json_outcome.
      destruct (json_loads text) as [e|parsed] eqn:L; [now left|].
      destruct (json_dumps parsed) as [e|out] eqn:D; [now left|].
      right; right. exists parsed.
      apply minify_type_values in K. simpl in K.
      destruct K as [<-|[<-|[<-|[<-|[<-|[]]]]]];
        solve [discriminate R | auto].
Qed.

(** The fallback at work: a missing module, a failing module, an
    unsupported extension and a rejected JSON text all give the text back. *)
Lemma minify_code_falls_back_to_text_witness :
  minify_code ascii_lower None (Some Demo.broken_minifier) None None
    Demo.json_loads Demo.json_dumps (lit "x = 1") (lit ".PY")
  = ret (lit "x = 1")
  /\ minify_code ascii_lower None (Some Demo.broken_minifier) None None
       Demo.json_loads Demo.json_dumps (lit "f ( )") (lit ".js")
     = ret (lit "f ( )")
  /\ minify_code ascii_lower None (Some Demo.broken_minifier) None None
       Demo.json_loads Demo.json_dumps (lit "a b") (lit ".txt")
     = ret (lit "a b")
  /\ minify_code ascii_lower None (Some Demo.broken_minifier) None None
       Demo.json_loads Demo.json_dumps (lit "[1, 2") (lit ".json")
     = ret (lit "[1, 2").
Proof.
  pose (T := fun text ext =>
    minify_code_falls_back_to_text ascii_lower None
      (Some Demo.broken_minifier) None None
      Demo.json_loads Demo.json_dumps text ext).
  split; [|split; [|split]].
  - apply (proj1 (proj2 (T (lit "x = 1") (lit ".PY"))) (lit "python"));
      reflexivity.
  - apply (proj1 (proj2 (proj2 (T (lit "f ( )") (lit ".js"))))
             (lit "javascript") Demo.broken_minifier
             (Raise RuntimeError (lit "minifier crashed"))); reflexivity.
  - apply (proj1 (T (lit "a b") (lit ".txt"))); reflexivity.
  - apply (proj1 (proj2 (proj2 (proj2 (T (lit "[1, 2") (lit ".json")))))
             (Raise JSONDecodeError (lit "Expecting value"))); reflexivity.
Defined.

Example minify_code_minifies :
  minify_code ascii_lower (Some Demo.strip_spaces) None None None
    Demo.json_loads Demo.json_dumps (lit "x = 1") (lit ".py")
  = ret (lit "x=1")
  /\ minify_code ascii_lower None None None None
       Demo.json_loads Demo.json_dumps (lit "{ }") (lit ".json")
     = ret (lit "{}").
Proof. split; reflexivity. Qed.

(** ** looks_binary and decide_file *)

Lemma relative_to_app (root relative : Path) :
  relative_to (root ++ relative) root = ret relative.
Proof.
  induction root as [|r root IH]; simpl; [now destruct relative|].
  now rewrite str_eqb_refl.
Qed.

Lemma replace_sep_id (s : pystr) : replace os_sep (lit "/") s = s.
Proof.
  unfold replace. induction s as [|c s IH]; simpl; [reflexivity|].
  rewrite IH. destruct (char_eqb c os_sep) eqn:E; [|reflexivity].
  apply char_eqb_eq in E. now subst.
Qed.

Section ClassifyFacts.

Variable lower : pystr -> pystr.
Variable suffix : Path -> pystr.
Variable utf8_decode : bytes -> result pystr.

Let looks := looks_binary lower suffix utf8_decode.
Let decide := decide_file lower suffix utf8_decode.

Lemma looks_binary_total (fs : FileSystem) (p : Path) :
  exists b, looks fs p = ret b.
Proof.
  unfold looks, looks_binary.
  destruct (in_set _ BINARY_EXTENSIONS); [now exists true|].
  destruct (fs_read fs p) as [e|whole]; cbn; [now exists true|].
  destruct (existsb _ _); cbn; [now exists true|].
  destruct (utf8_decode _); cbn; [now exists true | now exists false].
Qed.

Lemma looks_binary_unreadable (fs : FileSystem) (p : Path) (e : exn) :
  fs_read fs p = inl e -> looks fs p = ret true.
Proof.
  intros R. unfold looks, looks_binary. rewrite R.
  destruct (in_set _ BINARY_EXTENSIONS); reflexivity.
Qed.

(** Everything a returned record says about the run that produced it. *)
Lemma decide_file_inv (fs : FileSystem) (p root : Path) (max_bytes : Z)
    (info : FileInfo) :
  decide fs p root max_bytes = ret info ->
  exists relative b,
    relative_to p root = ret relative
    /\ looks fs p = ret b
    /\ path info = p
    /\ rel info = path_to_str relative
    /\ (fs_stat_size fs p = ret (size info)
        \/ size info = 0%Z
           /\ exists e, fs_stat_size fs p = inl e
                        /\ exn_cls e = FileNotFoundError)
    /\ decision info =
         if is_ignored (rel info) then ignored_decision
         else if (size info >? max_bytes)%Z then too_large_decision
         else if b then binary_decision else ok_decision.
Proof.
  unfold decide, decide_file. intros H.
  destruct (relative_to p root) as [e|relative]; [discriminate|].
  cbn [bind] in H. rewrite replace_sep_id in H.
  destruct (looks_binary_total fs p) as [b B]. unfold looks in B.
  exists relative, b. split; [reflexivity|]. split; [exact B|].
  assert (K : forall sz,
    (if is_ignored (path_to_str relative)
     then ret (Build_FileInfo p (path_to_str relative) sz ignored_decision)
     else if (sz >? max_bytes)%Z
     then ret (Build_FileInfo p (path_to_str relative) sz too_large_decision)
     else
       binary <- looks_binary lower suffix utf8_decode fs p ;;
       if binary
       then ret (Build_FileInfo p (path_to_str relative) sz binary_decision)
       else ret (Build_FileInfo p (path_to_str relative) sz ok_decision))
    = ret info ->
    path info = p /\ rel info = path_to_str relative /\ size info = sz
    /\ decision info =
         if is_ignored (rel info) then ignored_decision
         else if (size info >? max_bytes)%Z then too_large_decision
         else if b then binary_decision else ok_decision).
  { intros sz. rewrite B. cbn [bind].
    destruct (is_ignored (path_to_str relative)) eqn:I;
      [|destruct (sz >? max_bytes)%Z eqn:L; [|destruct b]];
      intros E; inversion E; subst info; cbn; rewrite I; auto;
      rewrite L; auto. }
  destruct (fs_stat_size fs p) as [e|sz] eqn:S; cbn in H.
  - destruct e as [c msg]. destruct c; try discriminate H.
    cbn in H. apply K in H. destruct H as (P & R & Z0 & D).
    repeat split; auto. right. split; [assumption|].
    eexists; split; reflexivity.
  - apply K in H. destruct H as (P & R & Z0 & D).
    repeat split; auto. left. now rewrite Z0.
Qed.

End ClassifyFacts.

(** ** Paths below the [.git] directory *)

Lemma startswith_app (p rest : pystr) : startswith (p ++ rest) p = true.
Proof.
  induction p as [|c p IH]; simpl; [now destruct rest|].
  rewrite IH. unfold char_eqb. now rewrite N.eqb_refl.
Qed.

Lemma contains_unfold (needle hay : pystr) :
  contains needle hay
  = startswith hay needle
    || match hay with [] => false | _ :: hay' => contains needle hay' end.
Proof. destruct hay; reflexivity. Qed.

Lemma contains_app (needle before after : pystr) :
  contains needle (before ++ needle ++ after) = true.
Proof.
  induction before as [|c before IH]; rewrite contains_unfold.
  - cbn [app]. now rewrite startswith_app.
  - cbn [app]. rewrite IH. apply orb_true_r.
Qed.

Lemma join_app_cons (sep : pystr) (a : list pystr) (x : pystr)
    (b : list pystr) :
  join sep (a ++ x :: b)
  = concat (map (fun y => y ++ sep) a) ++ join sep (x :: b).
Proof.
  induction a as [|y a IH]; [reflexivity|].
  cbn [app map concat]. rewrite <- app_assoc, <- IH.
  destruct (a ++ x :: b) eqn:E; [now destruct a|].
  cbn [join]. now rewrite <- app_assoc.
Qed.

Lemma sep_before_parts (pre : list pystr) :
  exists q, [os_sep] ++ concat (map (fun y => y ++ [os_sep]) pre)
            = q ++ [os_sep].
Proof.
  induction pre as [|y pre [q Q]]; [now exists []|].
  exists (os_sep :: y ++ q). cbn [map concat app]. f_equal.
  rewrite <- !app_assoc. f_equal. exact Q.
Qed.


(** ** Decisions of decide_file *)

Section DecisionFacts.

Variable lower : pystr -> pystr.
Variable suffix : Path -> pystr.
Variable utf8_decode : bytes -> result pystr.

Let looks := looks_binary lower suffix utf8_decode.
Let decide := decide_file lower suffix utf8_decode.

Lemma decision_values (fs : FileSystem) (p root : Path) (max_bytes : Z)
    (info : FileInfo) :
  decide fs p root max_bytes = ret info ->
  decision info = ok_decision \/ decision info = ignored_decision
  \/ decision info = too_large_decision \/ decision info = binary_decision.
Proof.
  intros H. apply decide_file_inv in H.
  destruct H as (relative & b & _ & _ & _ & _ & _ & D). rewrite D.
  destruct (is_ignored (rel info)); auto.
  destruct (size info >? max_bytes)%Z; auto.
  destruct b; auto.
Qed.

(** A path below the root whose [stat] answers, or fails with
    [FileNotFoundError], is always classified. *)
Lemma decide_file_returns (fs : FileSystem) (root relative : Path)
    (max_bytes sz : Z) :
  try_except (fs_stat_size fs (root ++ relative))
    (is_class FileNotFoundError) (fun _ => ret 0%Z) = ret sz ->
  exists info,
    decide fs (root ++ relative) root max_bytes = ret info /\ size info = sz.
Proof.
  intros S. unfold decide, decide_file.
  rewrite relative_to_app. cbn [bind ret]. rewrite S. cbn [bind ret].
  destruct (is_ignored _); [eexists; split; reflexivity|].
  destruct (sz >? max_bytes)%Z; [eexists; split; reflexivity|].
  destruct (looks_binary_total lower suffix utf8_decode fs (root ++ relative))
    as [b ->].
  cbn [bind ret]. destruct b; eexists; split; reflexivity.
Qed.

End DecisionFacts.





Example one_byte_over :
  Demo.outcome (Demo.decide "over.txt")
  = Some (51201%Z, false, lit "too_large").
Proof. reflexivity. Qed.

(** C3, as the claim puts it, fails: [decide_file] catches only
    [FileNotFoundError] around [stat].  When [stat] is refused with
    [PermissionError] the exception leaves [decide_file] and no record
    with size 0 is produced. *)
Lemma decide_file_stat_denied_raises :
  fs_stat_size Demo.fs (path_div Demo.repo_root (lit "sealed/x.txt"))
    = Demo.denied
  /\ Demo.decide "sealed/x.txt" = Demo.denied
  /\ ~ (exists info, Demo.decide "sealed/x.txt" = ret info
                     /\ size info = 0%Z).
Proof.
  split; [reflexivity|]. split; [reflexivity|].
  intros (info & H & _). vm_compute in H. discriminate.
Qed.

(** C3, amended.  For a path below the root, [decide_file] returns a
    record whenever [stat] answers or fails with [FileNotFoundError]; in
    the latter case the size is 0.  Any other failure of [stat] is raised
    to the caller.  A returned record whose file cannot be opened or read
    is [binary], unless the path is ignored or the size is over the
    limit. *)
Theorem decide_file_degrades
    (lower : pystr -> pystr) (suffix : Path -> pystr)
    (utf8_decode : bytes -> result pystr)
    (fs : FileSystem) (root relative : Path) (max_bytes : Z) :
  let p := root ++ relative in
  let run := decide_file lower suffix utf8_decode fs p root max_bytes in
  (forall sz, fs_stat_size fs p = ret sz ->
     exists info, run = ret info /\ size info = sz)
  /\ (forall e, fs_stat_size fs p = inl e -> exn_cls e = FileNotFoundError ->
        exists info, run = ret info /\ size info = 0%Z)
  /\ (forall e, fs_stat_size fs p = inl e -> exn_cls e <> FileNotFoundError ->
        run = inl e)
  /\ (forall info e, run = ret info -> fs_read fs p = inl e ->
        is_ignored (rel info) = false -> (size info <= max_bytes)%Z ->
        decision info = binary_decision).
Proof.
  intros p run. split; [|split; [|split]].
  - intros sz S. apply decide_file_returns. fold p. now rewrite S.
  - intros e S C. apply decide_file_returns. fold p. rewrite S. cbn.
    unfold is_class. now rewrite C.
  - intros e S C. unfold run, decide_file.
    unfold p. rewrite relative_to_app. cbn [bind ret]. fold p. rewrite S.
    cbn. destruct e as [c msg]. destruct c; cbn in *; congruence.
  - intros info e H R I L. apply decide_file_inv in H.
    destruct H as (rl & b & _ & B & _ & _ & _ & D).
    rewrite (looks_binary_unreadable _ _ _ _ _ R) in B. injection B as <-.
    rewrite D, I. rewrite Z.gtb_ltb.
    destruct (max_bytes <? size info)%Z eqn:G; [|reflexivity].
    apply Z.ltb_lt in G. lia.
Qed.

(** A vanished file gets size 0 and, being unreadable, is binary; so is a
    file that exists but may not be opened. *)
Lemma decide_file_degrades_witness :
  (exists info, Demo.decide "gone.txt" = ret info
                /\ size info = 0%Z /\ decision info = binary_decision)
  /\ (exists info, Demo.decide "locked.txt" = ret info
                   /\ size info = 7%Z /\ decision info = binary_decision).
Proof.
  pose (T := decide_file_degrades ascii_lower Demo.suffix Demo.utf8_decode
               Demo.fs Demo.repo_root).
  split.
  - destruct (T [lit "gone.txt"] Demo.max_bytes) as (_ & Gone & _ & Bin).
    destruct (Gone (Raise FileNotFoundError
                      (lit "[Errno 2] No such file or directory")))
      as (info & H & S); [reflexivity | reflexivity |].
    exists info. split; [exact H|]. split; [exact S|].
    apply (Bin info (Raise FileNotFoundError
                       (lit "[Errno 2] No such file or directory")) H).
    + reflexivity.
    + vm_compute in H. now injection H as <-.
    + rewrite S. unfold Demo.max_bytes. lia.
  - destruct (T [lit "locked.txt"] Demo.max_bytes) as (Ok & _ & _ & Bin).
    destruct (Ok 7%Z) as (info & H & S); [reflexivity|].
    exists info. split; [exact H|]. split; [exact S|].
    apply (Bin info (Raise PermissionError
                       (lit "[Errno 13] Permission denied")) H).
    + reflexivity.
    + vm_compute in H. now injection H as <-.
    + rewrite S. unfold Demo.max_bytes. lia.
Defined.

(** ** Buckets *)

Section Buckets.

Variable A : Type.
Variables f1 f2 f3 f4 : A -> bool.

Lemma four_way_partition (l : list A) :
  Forall (fun x => Nat.b2n (f1 x) + Nat.b2n (f2 x) + Nat.b2n (f3 x)
                   + Nat.b2n (f4 x) = 1) l ->
  Permutation (filter f1 l ++ filter f2 l ++ filter f3 l ++ filter f4 l) l.
Proof.
  induction 1 as [|x l Hx _ IH]; [constructor|].
  cbn [filter].
  destruct (f1 x), (f2 x), (f3 x), (f4 x); cbn in Hx; try discriminate Hx.
  - cbn [app]. now constructor.
  - apply Permutation_sym, Permutation_cons_app, Permutation_sym. exact IH.
  - rewrite app_assoc. apply Permutation_sym, Permutation_cons_app.
    rewrite <- app_assoc. apply Permutation_sym. exact IH.
  - rewrite !app_assoc. apply Permutation_sym, Permutation_cons_app.
    rewrite <- !app_assoc. apply Permutation_sym. exact IH.
Qed.

End Buckets.

Section ClassifiedLists.

Variable lower : pystr -> pystr.
Variable suffix : Path -> pystr.
Variable utf8_decode : bytes -> result pystr.
Variable fs : FileSystem.
Variable root : Path.
Variable max_bytes : Z.

Lemma classified_decisions (cands : list Path) (infos : list FileInfo) :
  classified lower suffix utf8_decode fs root max_bytes cands infos ->
  Forall (fun info =>
            decision info = ok_decision \/ decision info = ignored_decision
            \/ decision info = too_large_decision
            \/ decision info = binary_decision) infos.
Proof.
  induction 1 as [|p info cands infos H _ IH]; constructor; [|exact IH].
  exact (decision_values _ _ _ _ _ _ _ H).
Qed.

Lemma classified_paths (cands : list Path) (infos : list FileInfo) :
  classified lower suffix utf8_decode fs root max_bytes cands infos ->
  map path infos = cands.
Proof.
  induction 1 as [|p info cands infos H _ IH]; [reflexivity|].
  cbn [map]. rewrite IH. apply decide_file_inv in H.
  destruct H as (_ & _ & _ & _ & -> & _). reflexivity.
Qed.

End ClassifiedLists.

(** When every path of a list is classified by [decide_file], each
    record lands in exactly one of the four lists that [build_html]
    builds; the four lists together are a rearrangement of the records,
    the records carry the paths in order, and the total that
    [build_html] reports is the number of paths. *)
Lemma buckets_partition_candidates
    (lower : pystr -> pystr) (suffix : Path -> pystr)
    (utf8_decode : bytes -> result pystr)
    (fs : FileSystem) (root : Path) (max_bytes : Z)
    (cands : list Path) (infos : list FileInfo) :
  classified lower suffix utf8_decode fs root max_bytes cands infos ->
  let st := build_html_stats infos in
  Forall (fun info => hits info = 1) infos
  /\ Permutation
       (rendered st ++ skipped_binary st ++ skipped_large st
        ++ skipped_ignored st) infos
  /\ map path infos = cands
  /\ total_files st = List.length cands
  /\ List.length (rendered st) + List.length (skipped_binary st)
     + List.length (skipped_large st) + List.length (skipped_ignored st)
     = List.length cands.
Proof.
  intros C st.
  assert (H1 : Forall (fun info => hits info = 1) infos).
  { eapply Forall_impl; [|exact (classified_decisions C)].
    intros info [D|[D|[D|D]]]; unfold hits; rewrite D; reflexivity. }
  assert (P : Permutation
                (rendered st ++ skipped_binary st ++ skipped_large st
                 ++ skipped_ignored st) infos).
  { unfold st, build_html_stats. cbn.
    apply four_way_partition. exact H1. }
  assert (L : List.length (rendered st) + List.length (skipped_binary st)
              + List.length (skipped_large st)
              + List.length (skipped_ignored st) = List.length cands).
  { rewrite (Forall2_length C), <- (Permutation_length P), !length_app. lia. }
  repeat split; auto.
  exact (classified_paths C).
Qed.

Lemma demo_records_classified :
  classified ascii_lower Demo.suffix Demo.utf8_decode Demo.fs
    Demo.repo_root Demo.max_bytes
    (map (path_div Demo.repo_root)
       (map lit [".git/config"; "README.md"; "big.bin"; "src/a.py"]%string))
    Demo.records.
Proof. repeat constructor. Qed.

(** The four files of the end-to-end scenario fill the lists with two
    rendered, none binary, one too large and one ignored record. *)
Example scenario_buckets :
  let st := build_html_stats Demo.records in
  total_files st = 4
  /\ map (fun i => rel i) (rendered st) = [lit "README.md"; lit "src/a.py"]
  /\ map (fun i => rel i) (skipped_large st) = [lit "big.bin"]
  /\ map (fun i => rel i) (skipped_ignored st) = [lit ".git/config"].
Proof.
  intros st.
  destruct (buckets_partition_candidates demo_records_classified)
    as (_ & _ & _ & T & _).
  split; [exact T|]. repeat split.
Qed.

(** C10.  In every record [decide_file] returns, the flag is set exactly
    when the reason is [ok]; the reasons [ignored], [too_large] and
    [binary] come with a cleared flag.  Selecting records by the flag and
    selecting them by the reason therefore give the same lists. *)
Theorem include_iff_reason_ok
    (lower : pystr -> pystr) (suffix : Path -> pystr)
    (utf8_decode : bytes -> result pystr)
    (fs : FileSystem) (root : Path) (max_bytes : Z)
    (cands : list Path) (infos : list FileInfo) :
  classified lower suffix utf8_decode fs root max_bytes cands infos ->
  Forall (fun info =>
            (include (decision info) = true
             <-> reason (decision info) = lit "ok")
            /\ (In (reason (decision info))
                  [lit "ignored"; lit "too_large"; lit "binary"] ->
                include (decision info) = false)
            /\ In (reason (decision info))
                 [lit "ok"; lit "ignored"; lit "too_large"; lit "binary"])
         infos
  /\ filter (fun i => include (decision i)) infos
     = filter (fun i => str_eqb (reason (decision i)) (lit "ok")) infos
  /\ filter (fun i => negb (include (decision i))) infos
     = filter (fun i => in_set (reason (decision i))
                          [lit "ignored"; lit "too_large"; lit "binary"])
         infos.
Proof.
  intros C. pose proof (classified_decisions C) as D. clear C.
  split; [|split].
  - eapply Forall_impl; [|exact D].
    intros info [E|[E|[E|E]]]; rewrite E; cbn;
      (split; [split; (reflexivity || discriminate)|]);
      (split; [|tauto]);
      intros [F|[F|[F|[]]]]; (reflexivity || discriminate F).
  - induction D as [|info infos E _ IH]; [reflexivity|].
    cbn [filter]. rewrite IH.
    destruct E as [E|[E|[E|E]]]; rewrite E; reflexivity.
  - induction D as [|info infos E _ IH]; [reflexivity|].
    cbn [filter]. rewrite IH.
    destruct E as [E|[E|[E|E]]]; rewrite E; reflexivity.
Qed.

Lemma include_iff_reason_ok_witness :
  filter (fun i => include (decision i)) Demo.records
  = filter (fun i => str_eqb (reason (decision i)) (lit "ok")) Demo.records
  /\ List.length (filter (fun i => include (decision i)) Demo.records) = 2.
Proof.
  split; [|reflexivity].
  exact (proj1 (proj2 (include_iff_reason_ok demo_records_classified))).
Defined.

(** ** generate_cxml_text *)

Section CxmlFacts.

Variable lower : pystr -> pystr.
Variable suffix : Path -> pystr.
Variable decode_replace : bytes -> pystr.
Variables python_minifier rjsmin rcssmin htmlmin
  : option (pystr -> result pystr).
Variable json_value : Type.
Variable json_loads : pystr -> result json_value.
Variable json_dumps : json_value -> result pystr.
Variable fs : FileSystem.
Variable minify : bool.

Let doc := document_lines lower suffix decode_replace python_minifier rjsmin
             rcssmin htmlmin json_loads json_dumps fs minify.
Let cxml_lines := generate_cxml_lines lower suffix decode_replace
                    python_minifier rjsmin rcssmin htmlmin json_loads
                    json_dumps fs.

Lemma enumerate_app (A : Type) (start : nat) (xs ys : list A) :
  enumerate start (xs ++ ys)
  = enumerate start xs ++ enumerate (start + List.length xs) ys.
Proof.
  unfold enumerate. revert start.
  induction xs as [|x xs IH]; intros start; cbn [app List.length].
  - now rewrite Nat.add_0_r.
  - cbn [seq combine app]. rewrite IH. cbn [List.length].
    now rewrite Nat.add_succ_r.
Qed.

Lemma enumerate_fst (A : Type) (start : nat) (xs : list A) :
  map fst (enumerate start xs) = seq start (List.length xs).
Proof.
  unfold enumerate. revert start.
  induction xs as [|x xs IH]; intros start; [reflexivity|].
  cbn [List.length seq combine map fst]. now rewrite IH.
Qed.

Lemma enumerate_snd (A : Type) (start : nat) (xs : list A) :
  map snd (enumerate start xs) = xs.
Proof.
  unfold enumerate. revert start.
  induction xs as [|x xs IH]; intros start; [reflexivity|].
  cbn [List.length seq combine map snd]. now rewrite IH.
Qed.

(** The loop of [generate_cxml_text] appends the six lines of every
    entry, whatever happens while its file is read. *)
Lemma cxml_loop (entries : list (nat * FileInfo)) (lines : list pystr) :
  fold_left
    (fun (acc : result (list pystr)) (entry : nat * FileInfo) =>
       lines <- acc ;;
       let (index, i) := entry in
       let lines :=
         lines ++ [lit "<document index=" ++ [quote] ++ str_of_nat index
                   ++ [quote] ++ lit ">"] in
       let lines := lines ++ [lit "<source>" ++ rel i ++ lit "</source>"] in
       let lines := lines ++ [lit "<document_content>"] in
       lines <-
         try_except
           (text <- read_text decode_replace fs (path i) ;;
            text <- (if minify
                     then minify_code lower python_minifier rjsmin rcssmin
                            htmlmin json_loads json_dumps text
                            (suffix (path i))
                     else ret text) ;;
            ret (lines ++ [text]))
           any_Exception
           (fun e => ret (lines ++ [lit "Failed to read: " ++ exn_str e])) ;;
       let lines := lines ++ [lit "</document_content>"] in
       ret (lines ++ [lit "</document>"]))
    entries (ret lines)
  = ret (lines ++ flat_map doc entries).
Proof.
  revert lines. induction entries as [|[index i] entries IH]; intros lines.
  - cbn. now rewrite app_nil_r.
  - cbn [fold_left flat_map]. cbn [bind ret].
    match goal with
    | |- fold_left _ _ ?start = _ =>
        replace start with (@ret (list pystr) (lines ++ doc (index, i)))
    end.
    + rewrite IH. now rewrite <- app_assoc.
    + unfold doc, document_lines, document_content. cbn [fst snd].
      destruct (read_text decode_replace fs (path i)) as [e|text];
        cbn; [now rewrite <- !app_assoc|].
      destruct minify; cbn; [|now rewrite <- !app_assoc].
      destruct (minify_code _ _ _ _ _ _ _ text (suffix (path i)));
        cbn; now rewrite <- !app_assoc.
Qed.

Lemma cxml_lines_closed_form (infos : list FileInfo) :
  cxml_lines infos minify
  = ret ([lit "<documents>"]
         ++ flat_map doc
              (enumerate 1 (filter (fun i => include (decision i)) infos))
         ++ [lit "</documents>"]).
Proof.
  unfold cxml_lines, generate_cxml_lines. cbv zeta.
  rewrite cxml_loop. cbn [bind ret]. now rewrite <- app_assoc.
Qed.

End CxmlFacts.

(** C6.  The corpus has one six-line document per record whose flag is
    set, and none for the others.  The documents follow the order of
    those records and carry the indices 1, 2, ..., N. *)
Theorem cxml_documents_indexed_in_order
    (lower : pystr -> pystr) (suffix : Path -> pystr)
    (decode_replace : bytes -> pystr)
    (python_minifier rjsmin rcssmin htmlmin : option (pystr -> result pystr))
    (json_value : Type)
    (json_loads : pystr -> result json_value)
    (json_dumps : json_value -> result pystr)
    (fs : FileSystem) (infos : list FileInfo) (minify : bool) :
  let rendered := filter (fun i => include (decision i)) infos in
  let docs := enumerate 1 rendered in
  let body :=
    [lit "<documents>"]
    ++ flat_map
         (document_lines lower suffix decode_replace python_minifier rjsmin
            rcssmin htmlmin json_loads json_dumps fs minify) docs
    ++ [lit "</documents>"] in
  map fst docs = seq 1 (List.length rendered)
  /\ map snd docs = rendered
  /\ generate_cxml_lines lower suffix decode_replace python_minifier rjsmin
       rcssmin htmlmin json_loads json_dumps fs infos minify = ret body
  /\ generate_cxml_text lower suffix decode_replace python_minifier rjsmin
       rcssmin htmlmin json_loads json_dumps fs infos minify
     = ret (join [10%N] body).
Proof.
  intros rendered docs body.
  split; [apply enumerate_fst|]. split; [apply enumerate_snd|].
  assert (L := cxml_lines_closed_form lower suffix decode_replace
                 python_minifier rjsmin rcssmin htmlmin json_loads json_dumps
                 fs minify infos).
  split; [exact L|].
  unfold generate_cxml_text. now rewrite L.
Qed.

(** The end-to-end scenario: two documents, [README.md] with index 1 and
    [src/a.py] with index 2. *)
Example cxml_of_scenario :
  Demo.cxml_lines Demo.records false
  = ret [ lit "<documents>";
          lit "<document index=" ++ [quote] ++ lit "1" ++ [quote] ++ lit ">";
          lit "<source>README.md</source>";
          lit "<document_content>";
          lit "# hi" ++ [10%N];
          lit "</document_content>";
          lit "</document>";
          lit "<document index=" ++ [quote] ++ lit "2" ++ [quote] ++ lit ">";
          lit "<source>src/a.py</source>";
          lit "<document_content>";
          lit "x = 1" ++ [10%N];
          lit "</document_content>";
          lit "</document>";
          lit "</documents>" ].
Proof. reflexivity. Qed.

(** C7.  When the file of an included record cannot be read, its
    document is still written in its place, with its index and source
    path and with the failure message as content; the documents before
    and after it are written as usual. *)
Theorem cxml_read_failure_is_inlined
    (lower : pystr -> pystr) (suffix : Path -> pystr)
    (decode_replace : bytes -> pystr)
    (python_minifier rjsmin rcssmin htmlmin : option (pystr -> result pystr))
    (json_value : Type)
    (json_loads : pystr -> result json_value)
    (json_dumps : json_value -> result pystr)
    (fs : FileSystem) (infos : list FileInfo) (minify : bool)
    (before after : list FileInfo) (i : FileInfo) (e : exn) :
  filter (fun i => include (decision i)) infos = before ++ i :: after ->
  fs_read fs (path i) = inl e ->
  let doc := document_lines lower suffix decode_replace python_minifier
               rjsmin rcssmin htmlmin json_loads json_dumps fs minify in
  generate_cxml_lines lower suffix decode_replace python_minifier rjsmin
    rcssmin htmlmin json_loads json_dumps fs infos minify
  = ret ([lit "<documents>"]
         ++ flat_map doc (enumerate 1 before)
         ++ [ lit "<document index=" ++ [quote]
                ++ str_of_nat (S (List.length before)) ++ [quote] ++ lit ">";
              lit "<source>" ++ rel i ++ lit "</source>";
              lit "<document_content>";
              lit "Failed to read: " ++ exn_str e;
              lit "</document_content>";
              lit "</document>" ]
         ++ flat_map doc (enumerate (S (S (List.length before))) after)
         ++ [lit "</documents>"]).
Proof.
  intros F R doc.
  rewrite cxml_lines_closed_form, F.
  change (before ++ i :: after) with (before ++ [i] ++ after).
  rewrite !enumerate_app, !flat_map_app. cbn [List.length].
  replace (1 + List.length before) with (S (List.length before)) by lia.
  replace (S (List.length before) + 1) with (S (S (List.length before)))
    by lia.
  fold doc. rewrite <- !app_assoc. do 3 f_equal.
  unfold enumerate. cbn [List.length seq combine flat_map].
  rewrite app_nil_r. unfold doc, document_lines, document_content, read_text.
  cbn [fst snd]. rewrite R. reflexivity.
Qed.

(** [locked.txt] cannot be read any more: document 2 holds the message,
    documents 1 and 3 hold their files. *)
Lemma cxml_read_failure_is_inlined_witness :
  Demo.cxml_lines Demo.stale_records true
  = ret [ lit "<documents>";
          lit "<document index=" ++ [quote] ++ lit "1" ++ [quote] ++ lit ">";
          lit "<source>README.md</source>";
          lit "<document_content>";
          lit "# hi" ++ [10%N];
          lit "</document_content>";
          lit "</document>";
          lit "<document index=" ++ [quote] ++ lit "2" ++ [quote] ++ lit ">";
          lit "<source>locked.txt</source>";
          lit "<document_content>";
          lit "Failed to read: [Errno 13] Permission denied";
          lit "</document_content>";
          lit "</document>";
          lit "<document index=" ++ [quote] ++ lit "3" ++ [quote] ++ lit ">";
          lit "<source>src/a.py</source>";
          lit "<document_content>";
          lit "x=1" ++ [10%N];
          lit "</document_content>";
          lit "</document>";
          lit "</documents>" ].
Proof.
  unfold Demo.cxml_lines.
  rewrite (@cxml_read_failure_is_inlined ascii_lower Demo.suffix
             Demo.decode_replace (Some Demo.strip_spaces) None None None
             _ Demo.json_loads Demo.json_dumps Demo.fs Demo.stale_records
             true
             [Build_FileInfo (path_div Demo.repo_root (lit "README.md"))
                (lit "README.md") 5 ok_decision]
             [Build_FileInfo (path_div Demo.repo_root (lit "src/a.py"))
                (lit "src/a.py") 6 ok_decision]
             (Build_FileInfo (path_div Demo.repo_root (lit "locked.txt"))
                (lit "locked.txt") 7 ok_decision)
             (Raise PermissionError (lit "[Errno 13] Permission denied")));
    reflexivity.
Defined.

(** ** Sorting *)

Lemma str_leb_total (a b : pystr) :
  str_leb a b = true \/ str_leb b a = true.
Proof.
  revert b. induction a as [|x a IH]; intros [|y b]; cbn; auto.
  destruct (N.ltb_spec x y), (N.ltb_spec y x), (N.eqb_spec x y),
    (N.eqb_spec y x); auto; lia.
Qed.

Lemma str_leb_trans (a b c : pystr) :
  str_leb a b = true -> str_leb b c = true -> str_leb a c = true.
Proof.
  revert b c. induction a as [|x a IH]; intros [|y b] [|z c]; cbn; auto;
    try discriminate.
  destruct (N.ltb_spec x y), (N.ltb_spec y z), (N.ltb_spec x z),
    (N.eqb_spec x y), (N.eqb_spec y z), (N.eqb_spec x z);
    auto; try discriminate; try lia.
  apply IH.
Qed.

Lemma key_leb_total (a b : bool * pystr) :
  key_leb a b = true \/ key_leb b a = true.
Proof.
  destruct a as [[|] s], b as [[|] t]; unfold key_leb; cbn; auto;
    apply str_leb_total.
Qed.

Lemma key_leb_trans (a b c : bool * pystr) :
  key_leb a b = true -> key_leb b c = true -> key_leb a c = true.
Proof.
  destruct a as [[|] s], b as [[|] t], c as [[|] u]; unfold key_leb; cbn;
    auto; try discriminate; apply str_leb_trans.
Qed.

Section SortFacts.

Variables (A K : Type) (key : A -> K) (leb : K -> K -> bool).
Hypothesis leb_total : forall a b, leb a b = true \/ leb b a = true.
Hypothesis leb_trans :
  forall a b c, leb a b = true -> leb b c = true -> leb a c = true.

Let le (x y : A) : Prop := leb (key x) (key y) = true.

Lemma insert_sorted_perm (x : A) (l : list A) :
  Permutation (insert_sorted key leb x l) (x :: l).
Proof.
  induction l as [|y l IH]; cbn; [reflexivity|].
  destruct (leb (key x) (key y)); [reflexivity|].
  rewrite IH. apply perm_swap.
Qed.

Lemma sorted_perm (l : list A) : Permutation (sorted key leb l) l.
Proof.
  induction l as [|x l IH]; cbn; [reflexivity|].
  rewrite insert_sorted_perm. now constructor.
Qed.

Lemma insert_sorted_ordered (x : A) (l : list A) :
  StronglySorted le l -> StronglySorted le (insert_sorted key leb x l).
Proof.
  induction 1 as [|y l S IH F]; cbn; [repeat constructor|].
  destruct (leb (key x) (key y)) eqn:E.
  - constructor; [now constructor|]. constructor; [exact E|].
    eapply Forall_impl; [|exact F]. intros z Hz. unfold le in *. eauto.
  - constructor; [exact IH|].
    apply (Permutation_Forall (Permutation_sym (insert_sorted_perm x l))).
    constructor; [|exact F].
    unfold le. destruct (leb_total (key x) (key y)); congruence.
Qed.

Lemma sorted_ordered (l : list A) : StronglySorted le (sorted key leb l).
Proof.
  induction l as [|x l IH]; cbn; [constructor|].
  now apply insert_sorted_ordered.
Qed.

End SortFacts.

(** Sorting commutes with a map that keeps the keys. *)
Lemma sorted_map (A B K : Type) (keyA : A -> K) (keyB : B -> K)
    (leb : K -> K -> bool) (f : A -> B) (l : list A) :
  (forall x, keyB (f x) = keyA x) ->
  sorted keyB leb (map f l) = map f (sorted keyA leb l).
Proof.
  intros Hk. induction l as [|x l IH]; [reflexivity|].
  cbn [map sorted]. rewrite IH. generalize (sorted keyA leb l) as m.
  induction m as [|y m IHm]; [reflexivity|].
  cbn [map insert_sorted]. rewrite !Hk.
  destruct (leb (keyA x) (keyA y)); [reflexivity|].
  cbn [map]. now rewrite IHm.
Qed.

(** ** The tree *)

Lemma tree_induction (P : tree -> Prop) :
  P File ->
  (forall d : dict, Forall (fun kv => P (snd kv)) d -> P (Dir d)) ->
  forall t, P t.
Proof.
  intros HF HD. fix IH 1. intros [|d]; [exact HF|].
  apply HD. induction d as [|kv d IHd]; constructor; [apply IH|exact IHd].
Qed.

Section TreeFacts.

Variable lower : pystr -> pystr.

Let item_key (kv : pystr * tree) : bool * pystr :=
  (is_None (snd kv), lower (fst kv)).

(** [walk_lines] in the shape of the source: sort the items of the dict,
    then loop over them, calling [walk_lines] on every subtree. *)
Lemma walk_Dir (d : dict) (prefix : pystr) (lines : list pystr) :
  walk_lines lower (Dir d) prefix lines
  = let items := sorted_items lower d in
    walk_lines_loop (List.length items) prefix
      (enumerate 0 (map (fun kv => (kv, walk_lines lower (snd kv))) items)) lines.
Proof.
  cbn [walk_lines]. cbv zeta. unfold sorted_items.
  rewrite (@sorted_map _ _ _ item_key
             (fun it : pystr * tree * (pystr -> list pystr -> list pystr) =>
                (is_None (snd (fst it)), lower (fst (fst it))))
             key_leb (fun kv => (kv, walk_lines lower (snd kv))) d)
    by reflexivity.
  now rewrite length_map.
Qed.

Lemma walk_loop_children (n : nat) (prefix : pystr) (l : dict) :
  Forall (fun kv => appends lower (snd kv)) l ->
  forall start lines,
    walk_lines_loop n prefix
      (enumerate start (map (fun kv => (kv, walk_lines lower (snd kv))) l)) lines
    = lines ++ flat_map (child_lines lower n prefix) (enumerate start l).
Proof.
  induction 1 as [|[name sub] l Hsub _ IH]; intros start lines.
  - cbn. now rewrite app_nil_r.
  - unfold enumerate in *. cbn [map List.length seq combine flat_map].
    cbn [walk_lines_loop]. rewrite IH. unfold child_lines at 2. cbn [fst snd].
    cbn [snd] in Hsub. destruct sub as [|d]; cbn [is_None negb].
    + cbn [walk_lines]. now rewrite <- !app_assoc.
    + rewrite (Hsub _ (lines ++ _)). now rewrite <- !app_assoc.
Qed.

Lemma walk_appends (t : tree) : appends lower t.
Proof.
  induction t as [|d Hd] using tree_induction.
  - intros prefix lines. cbn. now rewrite app_nil_r.
  - assert (Hs : Forall (fun kv => appends lower (snd kv)) (sorted_items lower d)).
    { apply (Permutation_Forall
               (Permutation_sym (sorted_perm item_key key_leb d))).
      exact Hd. }
    intros prefix lines. rewrite !walk_Dir. cbv zeta.
    now rewrite !(walk_loop_children _ _ Hs).
Qed.

Lemma walk_children (d : dict) (prefix : pystr) (lines : list pystr) :
  walk_lines lower (Dir d) prefix lines
  = lines ++ flat_map
               (child_lines lower (List.length (sorted_items lower d)) prefix)
               (enumerate 0 (sorted_items lower d)).
Proof.
  rewrite walk_Dir. cbv zeta. apply walk_loop_children.
  apply Forall_forall. intros kv _. apply walk_appends.
Qed.

(** A list sorted on the keys of [walk] is a run of directories in
    case-insensitive order followed by a run of files in that order. *)
Lemma dirs_then_files (l : dict) :
  StronglySorted (fun a b => key_leb (item_key a) (item_key b) = true) l ->
  exists dirs files,
    l = dirs ++ files
    /\ Forall (fun kv => is_None (snd kv) = false) dirs
    /\ Forall (fun kv => is_None (snd kv) = true) files
    /\ StronglySorted (lower_le lower) dirs
    /\ StronglySorted (lower_le lower) files.
Proof.
  induction 1 as [|kv l S (dirs & files & -> & Hd & Hf & Sd & Sf) F].
  - exists [], []. repeat split; constructor.
  - destruct (is_None (snd kv)) eqn:N.
    + assert (Fk : Forall (fun b => is_None (snd b) = true
                                    /\ lower_le lower kv b) (dirs ++ files)).
      { eapply Forall_impl; [|exact F]. intros b. unfold key_leb, item_key.
        cbn [fst snd]. rewrite N. unfold lower_le.
        destruct (is_None (snd b)); [auto|discriminate]. }
      destruct dirs as [|dir dirs].
      * exists [], (kv :: files). cbn [app] in *.
        repeat split; try constructor; auto.
        eapply Forall_impl; [|exact Fk]. now intros b [_ Hb].
      * exfalso. inversion Hd as [|? ? Nd _]; subst.
        inversion Fk as [|? ? [Nk _] _]; subst. congruence.
    + exists (kv :: dirs), files. cbn [app].
      repeat split; auto; constructor; auto.
      apply Forall_app in F. destruct F as [Fd _].
      rewrite Forall_forall in *. intros b Hb.
      specialize (Fd b Hb). specialize (Hd b Hb).
      unfold key_leb, item_key in Fd. cbn [fst snd] in Fd.
      rewrite N, Hd in Fd. exact Fd.
Qed.

Lemma sorted_items_ordered (d : dict) :
  StronglySorted (fun a b => key_leb (item_key a) (item_key b) = true)
    (sorted_items lower d).
Proof.
  apply (sorted_ordered item_key key_leb key_leb_total key_leb_trans).
Qed.

End TreeFacts.

(** ** walk under the recursion limit *)

Lemma enumerate_In (A : Type) (start : nat) (xs : list A) (i : nat) (x : A) :
  In (i, x) (enumerate start xs) -> In x xs.
Proof. unfold enumerate. apply in_combine_r. Qed.

Lemma frames_fold_bounds (base : nat) (items : dict) :
  base <= fold_right (fun kv n => Nat.max (frames_needed (snd kv)) n)
            base items
  /\ forall kv, In kv items ->
       frames_needed (snd kv)
       <= fold_right (fun kv n => Nat.max (frames_needed (snd kv)) n)
            base items.
Proof.
  induction items as [|x items [IHb IHk]]; cbn [fold_right].
  - split; [lia|intros kv []].
  - split; [lia|]. intros kv [<-|I]; [lia|]. specialize (IHk kv I). lia.
Qed.

Lemma frames_fold_reached (base f : nat) (items : dict) :
  f < fold_right (fun kv n => Nat.max (frames_needed (snd kv)) n) base items ->
  f < base \/ exists kv, In kv items /\ f < frames_needed (snd kv).
Proof.
  induction items as [|x items IH]; cbn [fold_right]; [auto|].
  intros H. destruct (Nat.lt_ge_cases f (frames_needed (snd x))) as [L|G].
  - right. exists x. split; [now left|exact L].
  - destruct IH as [B|(kv & I & L)]; [lia|now left|].
    right. exists kv. split; [now right|exact L].
Qed.

Section WalkFacts.

Variable lower : pystr -> pystr.

Lemma sorted_items_In (node : dict) (kv : pystr * tree) :
  In kv (sorted_items lower node) <-> In kv node.
Proof.
  split; apply Permutation_in;
    [|apply Permutation_sym]; apply sorted_perm.
Qed.

Lemma walk_loop_returns
    (walk_subtree : dict -> pystr -> list pystr -> list pystr * option exn)
    (n : nat) (prefix : pystr) (rest : list (nat * (pystr * tree))) :
  (forall i name sub, In (i, (name, Dir sub)) rest ->
     forall p ls,
       walk_subtree sub p ls = (ls ++ walk_lines lower (Dir sub) p [], None)) ->
  forall lines,
    walk_loop walk_subtree n prefix rest lines
    = (lines ++ flat_map (child_lines lower n prefix) rest, None).
Proof.
  induction rest as [|[i [name subtree]] rest IH]; intros H lines.
  - cbn. now rewrite app_nil_r.
  - cbn [walk_loop flat_map]. unfold child_lines at 1. cbn [fst snd].
    assert (Ht : forall i name sub, In (i, (name, Dir sub)) rest ->
                 forall p ls,
                   walk_subtree sub p ls
                   = (ls ++ walk_lines lower (Dir sub) p [], None))
      by (intros; apply (H i0 name0); now right).
    destruct subtree as [|sub].
    + rewrite (IH Ht). cbn [walk_lines]. now rewrite <- !app_assoc.
    + rewrite (H i name sub (or_introl eq_refl)), (IH Ht).
      now rewrite <- !app_assoc.
Qed.

(** With enough frames [walk] returns, having appended the lines of
    [walk_lines]. *)
Lemma walk_enough (frames : nat) :
  forall node prefix lines,
    frames_needed (Dir node) <= frames ->
    walk lower frames node prefix lines
    = (lines ++ walk_lines lower (Dir node) prefix [], None).
Proof.
  induction frames as [|frames IH]; intros node prefix lines N.
  - cbn [frames_needed] in N. lia.
  - assert (C : forall kv, In kv (sorted_items lower node) ->
                  frames_needed (snd kv) <= frames).
    { intros kv I. apply (proj1 (@sorted_items_In node kv)) in I.
      cbn [frames_needed] in N.
      pose proof (proj2 (frames_fold_bounds
                           (match node with [] => 0 | _ :: _ => 1 end) node)
                    kv I).
      lia. }
    assert (L : walk_loop (walk lower frames)
                  (List.length (sorted_items lower node)) prefix
                  (enumerate 0 (sorted_items lower node)) lines
                = (lines ++ walk_lines lower (Dir node) prefix [], None)).
    { rewrite walk_loop_returns.
      - now rewrite (walk_children lower node prefix []).
      - intros i name sub I p ls. apply IH.
        apply enumerate_In in I. exact (C _ I). }
    cbn [walk]. destruct node as [|x node]; [exact L|].
    destruct frames as [|frames']; [|exact L].
    cbn [frames_needed] in N.
    pose proof (proj1 (frames_fold_bounds 1 (x :: node))). lia.
Qed.

Lemma walk_loop_class
    (walk_subtree : dict -> pystr -> list pystr -> list pystr * option exn)
    (n : nat) (prefix : pystr) (rest : list (nat * (pystr * tree))) :
  (forall sub p ls e,
     snd (walk_subtree sub p ls) = Some e -> exn_cls e = RecursionError) ->
  forall lines e,
    snd (walk_loop walk_subtree n prefix rest lines) = Some e ->
    exn_cls e = RecursionError.
Proof.
  intros H. induction rest as [|[i [name subtree]] rest IH]; intros lines e.
  - discriminate.
  - cbn [walk_loop]. destruct subtree as [|sub]; [apply IH|].
    destruct (walk_subtree sub _ _) as [ls [e'|]] eqn:W.
    + cbn. intros [= <-]. eapply H. rewrite W. reflexivity.
    + apply IH.
Qed.

(** [walk] raises nothing but [RecursionError]. *)
Lemma walk_class (frames : nat) :
  forall node prefix lines e,
    snd (walk lower frames node prefix lines) = Some e ->
    exn_cls e = RecursionError.
Proof.
  induction frames as [|frames IH]; intros node prefix lines e.
  - cbn. now intros [= <-].
  - cbn [walk]. destruct node as [|x node].
    + apply walk_loop_class. exact IH.
    + destruct frames as [|frames'].
      * cbn. now intros [= <-].
      * apply walk_loop_class. exact IH.
Qed.

Lemma walk_loop_raises
    (walk_subtree : dict -> pystr -> list pystr -> list pystr * option exn)
    (n : nat) (prefix : pystr) (rest : list (nat * (pystr * tree))) :
  (exists i name sub,
     In (i, (name, Dir sub)) rest
     /\ forall p ls, exists e, snd (walk_subtree sub p ls) = Some e) ->
  forall lines,
    exists e, snd (walk_loop walk_subtree n prefix rest lines) = Some e.
Proof.
  induction rest as [|[i [name subtree]] rest IH];
    intros (i0 & name0 & sub0 & I & R) lines; [destruct I|].
  cbn [walk_loop]. destruct subtree as [|sub].
  - destruct I as [I|I]; [discriminate I|].
    apply IH. now exists i0, name0, sub0.
  - destruct (walk_subtree sub _ _) as [ls [e'|]] eqn:W; [now exists e'|].
    destruct I as [I|I].
    + assert (S0 : sub0 = sub) by congruence. subst sub0.
      match type of W with
      | walk_subtree sub ?p ?ls = _ =>
          destruct (R p ls) as [e E]; rewrite W in E; discriminate E
      end.
    + apply IH. now exists i0, name0, sub0.
Qed.

(** Without enough frames [walk] raises. *)
Lemma walk_too_deep (frames : nat) :
  forall node prefix lines,
    frames < frames_needed (Dir node) ->
    exists e, snd (walk lower frames node prefix lines) = Some e.
Proof.
  induction frames as [|frames IH]; intros node prefix lines N.
  - cbn. now eexists.
  - cbn [walk]. destruct node as [|x node].
    { cbn in N. lia. }
    destruct frames as [|frames']; [cbn; now eexists|].
    cbn [frames_needed] in N.
    destruct (@frames_fold_reached 1 (S frames') (x :: node))
      as [B|(kv & I & L)]; [lia|lia|].
    destruct kv as [name [|sub]]; [cbn in L; lia|].
    apply walk_loop_raises.
    apply (proj2 (@sorted_items_In (x :: node) (name, Dir sub))) in I.
    apply (In_nth _ _ (name, Dir sub)) in I. destruct I as (k & K & E).
    exists k, name, sub. split.
    + unfold enumerate.
      assert (G : nth k (combine (seq 0 (List.length
                                          (sorted_items lower (x :: node))))
                           (sorted_items lower (x :: node)))
                    (0, (name, Dir sub))
                  = (k, (name, Dir sub))).
      { rewrite combine_nth by (now rewrite length_seq).
        rewrite seq_nth by exact K. now rewrite E. }
      rewrite <- G. apply nth_In. rewrite length_combine, length_seq. lia.
    + intros p ls. apply IH. exact L.
Qed.

(** A call that returns has appended the lines of [walk_lines]. *)
Lemma walk_returned (frames : nat) (node : dict) (prefix : pystr)
    (lines : list pystr) :
  snd (walk lower frames node prefix lines) = None ->
  frames_needed (Dir node) <= frames
  /\ fst (walk lower frames node prefix lines)
     = lines ++ walk_lines lower (Dir node) prefix [].
Proof.
  intros H. destruct (Nat.le_gt_cases (frames_needed (Dir node)) frames)
    as [L|G].
  - split; [exact L|]. now rewrite walk_enough.
  - destruct (walk_too_deep prefix lines G) as [e E]. congruence.
Qed.

Lemma walk_loop_written
    (walk_subtree : dict -> pystr -> list pystr -> list pystr * option exn)
    (n : nat) (prefix : pystr) (rest : list (nat * (pystr * tree))) :
  (forall sub p ls,
     (snd (walk_subtree sub p ls) = None ->
      fst (walk_subtree sub p ls) = ls ++ walk_lines lower (Dir sub) p [])
     /\ exists r, ls ++ walk_lines lower (Dir sub) p []
                  = fst (walk_subtree sub p ls) ++ r) ->
  forall lines,
    exists r, lines ++ flat_map (child_lines lower n prefix) rest
              = fst (walk_loop walk_subtree n prefix rest lines) ++ r.
Proof.
  intros H. induction rest as [|[i [name subtree]] rest IH]; intros lines.
  - exists []. reflexivity.
  - cbn [walk_loop flat_map]. unfold child_lines at 1. cbn [fst snd].
    destruct subtree as [|sub].
    + destruct (IH (lines ++ [prefix ++
          (if Nat.eqb i (n - 1) then branch_last else branch_mid) ++ name]))
        as [r R].
      exists r. etransitivity; [|exact R].
      cbn [walk_lines]. now rewrite <- !app_assoc.
    + destruct (H sub (prefix ++
          (if Nat.eqb i (n - 1) then extension_last else extension_mid))
          (lines ++ [prefix ++
             (if Nat.eqb i (n - 1) then branch_last else branch_mid) ++ name]))
        as [Ret [r1 R1]].
      destruct (walk_subtree sub _ _) as [ls [e|]]; cbn [fst snd] in *.
      * exists (r1 ++ flat_map (child_lines lower n prefix) rest).
        rewrite (app_assoc ls), <- R1. now rewrite <- !app_assoc.
      * rewrite (Ret eq_refl). destruct (IH (
          (lines ++ [prefix ++
             (if Nat.eqb i (n - 1) then branch_last else branch_mid) ++ name])
          ++ walk_lines lower (Dir sub) (prefix ++
               (if Nat.eqb i (n - 1) then extension_last else extension_mid))
               [])) as [r R].
        exists r. etransitivity; [|exact R]. now rewrite <- !app_assoc.
Qed.

(** Whatever [walk] has written, also up to a [RecursionError], is an
    initial part of the lines of [walk_lines]. *)
Lemma walk_written (frames : nat) :
  forall node prefix lines,
    exists r, lines ++ walk_lines lower (Dir node) prefix []
              = fst (walk lower frames node prefix lines) ++ r.
Proof.
  induction frames as [|frames IH]; intros node prefix lines.
  - cbn. now eexists.
  - assert (L : exists r,
               lines ++ walk_lines lower (Dir node) prefix []
               = fst (walk_loop (walk lower frames)
                        (List.length (sorted_items lower node)) prefix
                        (enumerate 0 (sorted_items lower node)) lines) ++ r).
    { rewrite (walk_children lower node prefix []). cbn [app].
      apply walk_loop_written. intros sub p ls. split; [|apply IH].
      intros R. now apply walk_returned. }
    cbn [walk]. destruct node as [|x node]; [exact L|].
    destruct frames as [|frames']; [cbn; now eexists|exact L].
Qed.

End WalkFacts.

(** C8.  At every level, that is for every dict [node] that [walk] is
    called on, the children are visited in the order [items]: a
    rearrangement of the dict's entries in which all directories come
    before all files and each of the two groups is in case-insensitive
    alphabetical order.  When the recursion limit leaves [walk] enough
    frames, it writes, child after child in that order, the line of the
    child followed by the lines of its subtree, and the text of
    [build_git_tree] is the root name followed by these lines.  Otherwise
    it raises [RecursionError], and what it has written until then is an
    initial part of those lines.  The text depends on nothing but the
    root name and the listing: two runs that return, on disks with the
    same listing and with whatever frames left, give the same text. *)
Theorem tree_levels_dirs_first_sorted
    (lower : pystr -> pystr) (node : dict) (prefix : pystr)
    (lines : list pystr) :
  let items := sorted_items lower node in
  let ordered :=
    flat_map (child_lines lower (List.length items) prefix)
      (enumerate 0 items) in
  Permutation items node
  /\ (exists dirs files,
        items = dirs ++ files
        /\ Forall (fun kv => is_None (snd kv) = false) dirs
        /\ Forall (fun kv => is_None (snd kv) = true) files
        /\ StronglySorted (lower_le lower) dirs
        /\ StronglySorted (lower_le lower) files)
  /\ (forall frames,
        frames_needed (Dir node) <= frames ->
        walk lower frames node prefix lines = (lines ++ ordered, None))
  /\ (forall frames,
        frames < frames_needed (Dir node) ->
        exists e written rest,
          walk lower frames node prefix lines = (written, Some e)
          /\ exn_cls e = RecursionError
          /\ lines ++ ordered = written ++ rest)
  /\ (forall fs frames repo_root tracked,
        fs_ls_files fs repo_root = ret tracked ->
        build_tree tracked = ret node ->
        (frames_needed (Dir node) <= frames ->
         build_git_tree lower fs frames repo_root
         = ret (join [10%N]
                  (path_name repo_root
                   :: flat_map (child_lines lower (List.length items) [])
                        (enumerate 0 items))))
        /\ (frames < frames_needed (Dir node) ->
            exists e,
              build_git_tree lower fs frames repo_root = inl e
              /\ exn_cls e = RecursionError))
  /\ (forall fs fs' frames frames' repo_root text text',
        fs_ls_files fs repo_root = fs_ls_files fs' repo_root ->
        build_git_tree lower fs frames repo_root = ret text ->
        build_git_tree lower fs' frames' repo_root = ret text' ->
        text = text').
Proof.
  intros items ordered.
  assert (W : forall p, walk_lines lower (Dir node) p []
                        = flat_map (child_lines lower (List.length items) p)
                            (enumerate 0 items))
    by (intros p; now rewrite walk_children).
  split; [|split; [|split; [|split; [|split]]]].
  - apply sorted_perm.
  - apply dirs_then_files, sorted_items_ordered.
  - intros frames N. rewrite walk_enough by exact N. now rewrite W.
  - intros frames N.
    destruct (walk_too_deep lower prefix lines N) as [e E].
    destruct (walk_written lower frames node prefix lines) as [rest R].
    destruct (walk lower frames node prefix lines) as [written oe] eqn:Wk.
    cbn [fst snd] in E, R. subst oe. exists e, written, rest.
    split; [reflexivity|]. split.
    + eapply walk_class. rewrite Wk. reflexivity.
    + rewrite <- R. now rewrite W.
  - intros fs frames repo_root tracked L B.
    unfold build_git_tree. rewrite L. cbn [bind ret]. rewrite B.
    cbn [bind ret]. split.
    + intros N. rewrite walk_enough by exact N. now rewrite W.
    + intros N.
      destruct (walk_too_deep lower [] [path_name repo_root] N) as [e E].
      destruct (walk lower frames node [] [path_name repo_root])
        as [written oe] eqn:Wk.
      cbn [snd] in E. subst oe. exists e. split; [reflexivity|].
      eapply walk_class. rewrite Wk. reflexivity.
  - intros fs fs' frames frames' repo_root text text' Same.
    unfold build_git_tree. rewrite <- Same.
    destruct (fs_ls_files fs repo_root) as [e|tracked];
      [discriminate|]. cbn [bind ret].
    destruct (build_tree tracked) as [e|tree]; [discriminate|].
    cbn [bind ret].
    destruct (walk lower frames tree [] [path_name repo_root])
      as [l1 [e1|]] eqn:W1; [discriminate|].
    destruct (walk lower frames' tree [] [path_name repo_root])
      as [l2 [e2|]] eqn:W2; [discriminate|].
    intros [= <-] [= <-].
    assert (R1 := walk_returned lower frames tree [] [path_name repo_root]).
    assert (R2 := walk_returned lower frames' tree [] [path_name repo_root]).
    rewrite W1 in R1. rewrite W2 in R2. cbn [fst snd] in R1, R2.
    destruct (R1 eq_refl) as [_ ->]. destruct (R2 eq_refl) as [_ ->].
    reflexivity.
Qed.

(** A listing with two directories, a nested one and two files, rendered
    with room for four nested calls; with room for three the call on
    [src/lib] cannot be made. *)
Lemma tree_levels_dirs_first_sorted_witness :
  build_git_tree ascii_lower (with_listing Demo.fs Demo.listing) 4
    Demo.repo_root
  = ret (join [10%N]
           [ lit "repo";
             branch_mid ++ lit "docs";
             extension_mid ++ branch_last ++ lit "x.md";
             branch_mid ++ lit "src";
             extension_mid ++ branch_mid ++ lit "lib";
             extension_mid ++ extension_mid ++ branch_last ++ lit "util.py";
             extension_mid ++ branch_mid ++ lit "A.py";
             extension_mid ++ branch_last ++ lit "b.py";
             branch_mid ++ lit "Makefile";
             branch_last ++ lit "README.md" ])
  /\ exists e,
       build_git_tree ascii_lower (with_listing Demo.fs Demo.listing) 3
         Demo.repo_root = inl e
       /\ exn_cls e = RecursionError.
Proof.
  destruct (build_tree Demo.listing) as [e|node] eqn:B;
    [vm_compute in B; discriminate|].
  destruct (tree_levels_dirs_first_sorted ascii_lower node [] [])
    as (_ & _ & _ & _ & T & _).
  assert (N : frames_needed (Dir node) = 4)
    by (vm_compute in B; injection B as <-; reflexivity).
  split.
  - destruct (T (with_listing Demo.fs Demo.listing) 4 Demo.repo_root
                Demo.listing eq_refl B) as [Enough _].
    rewrite Enough by (rewrite N; lia).
    vm_compute in B. injection B as <-. reflexivity.
  - destruct (T (with_listing Demo.fs Demo.listing) 3 Demo.repo_root
                Demo.listing eq_refl B) as [_ Deep].
    apply Deep. rewrite N. lia.
Defined.

(** Names that differ only in case keep the order of the listing, and a
    path below a tracked file makes [build_git_tree] fail. *)
Example tree_corner_cases :
  sorted_items ascii_lower [(lit "b", File); (lit "A", File);
                            (lit "a", File); (lit "z", Dir [])]
  = [(lit "z", Dir []); (lit "A", File); (lit "a", File); (lit "b", File)]
  /\ build_git_tree ascii_lower
       (with_listing Demo.fs (map lit ["a"; "a/b"]%string)) 100
       Demo.repo_root
     = raise (Raise AttributeError
                (lit "'NoneType' object has no attribute 'setdefault'")).
Proof. split; reflexivity. Qed.

(** ** collect_files *)

Section CollectFacts.

Variable lower : pystr -> pystr.
Variable suffix : Path -> pystr.
Variable utf8_decode : bytes -> result pystr.
Variable fs : FileSystem.
Variable root : Path.
Variable max_bytes : Z.

Let step (acc : result (list FileInfo)) (rel : pystr)
    : result (list FileInfo) :=
  infos <- acc ;;
  let p := path_div root rel in
  is_file <- fs_is_file fs p ;;
  if is_file then
    info <- decide_file lower suffix utf8_decode fs p root max_bytes ;;
    ret (infos ++ [info])
  else ret infos.

Lemma collect_loop_raised (rels : list pystr) (e : exn) :
  fold_left step rels (inl e) = inl e.
Proof. induction rels as [|rel rels IH]; [reflexivity|exact IH]. Qed.

Lemma collect_loop (rels : list pystr) (acc infos : list FileInfo) :
  fold_left step rels (ret acc) = ret infos ->
  exists new,
    infos = acc ++ new
    /\ classified lower suffix utf8_decode fs root max_bytes
         (map (path_div root)
            (filter (fun rel => is_regular fs (path_div root rel)) rels))
         new
    /\ Forall (fun rel => exists b,
                 fs_is_file fs (path_div root rel) = ret b) rels.
Proof.
  revert acc. induction rels as [|rel rels IH]; intros acc H.
  - cbn in H. injection H as <-. exists []. rewrite app_nil_r.
    repeat split; constructor.
  - cbn [fold_left filter] in H |- *. unfold step at 2 in H.
    cbn [bind ret] in H. unfold is_regular at 1.
    destruct (fs_is_file fs (path_div root rel)) as [e|[|]] eqn:F;
      cbn [bind ret] in H.
    + rewrite collect_loop_raised in H. discriminate.
    + destruct (decide_file lower suffix utf8_decode fs (path_div root rel)
                  root max_bytes) as [e|info] eqn:D; cbn [bind ret] in H.
      * rewrite collect_loop_raised in H. discriminate.
      * apply IH in H. destruct H as (new & -> & C & R).
        exists (info :: new). rewrite <- app_assoc.
        split; [reflexivity|]. split.
        -- cbn [map]. constructor; assumption.
        -- constructor; [now exists true|exact R].
    + apply IH in H. destruct H as (new & -> & C & R).
      exists new. repeat split; auto. constructor; [now exists false|exact R].
Qed.

(** The records of the loop are the classifications of the tracked paths
    that are regular files, in sorted order. *)
Lemma collect_tracked_classified (tracked : list pystr)
    (infos : list FileInfo) :
  collect_tracked lower suffix utf8_decode fs root max_bytes tracked
    = ret infos ->
  classified lower suffix utf8_decode fs root max_bytes
    (map (path_div root)
       (filter (fun rel => is_regular fs (path_div root rel))
          (sorted (fun s : pystr => s) str_leb tracked)))
    infos
  /\ Forall (fun rel => exists b, fs_is_file fs (path_div root rel) = ret b)
       (sorted (fun s : pystr => s) str_leb tracked).
Proof.
  intros H. apply collect_loop in H. destruct H as (new & -> & C & R).
  split; [exact C|exact R].
Qed.

(** [collect_files] returns only after [git ls-files] has answered. *)
Lemma collect_files_inv (infos : list FileInfo) :
  collect_files lower suffix utf8_decode fs root max_bytes = ret infos ->
  exists lines,
    fs_ls_files fs root = ret lines
    /\ collect_tracked lower suffix utf8_decode fs root max_bytes
         (set_of lines) = ret infos.
Proof.
  unfold collect_files, get_tracked_files. intros H.
  destruct (fs_ls_files fs root) as [e|lines]; [discriminate H|].
  now exists lines.
Qed.

End CollectFacts.

(** C4, as the claim puts it, fails: [collect_files] hands a tracked
    path to [decide_file] only when [is_file] answers [True].  Of five
    tracked paths, one of which is gone from the working tree, four get a
    record; the lists of [build_html] hold four records and the fifth
    path is in none of them. *)
Lemma tracked_path_without_file_dropped :
  let candidates := lit "gone.txt" :: Demo.tracked in
  exists infos,
    collect_files ascii_lower Demo.suffix Demo.utf8_decode
      (with_listing Demo.fs candidates) Demo.repo_root Demo.max_bytes
    = ret infos
    /\ List.length candidates = 5
    /\ total_files (build_html_stats infos) = 4
    /\ total_files (build_html_stats infos) <> List.length candidates
    /\ ~ In (lit "gone.txt") (map (fun i => rel i) infos).
Proof.
  exists Demo.records. cbn zeta.
  split; [reflexivity|]. split; [reflexivity|]. split; [reflexivity|].
  split; [discriminate|].
  cbn. intros [H|[H|[H|[H|[]]]]]; discriminate H.
Qed.

(** C4, amended.  When [collect_files] returns, its records are the
    classifications, in sorted order, of the tracked paths for which
    [is_file] answers [True]; the other tracked paths get no record.
    Each record lands in exactly one of the four lists that [build_html]
    builds, the four lists together are a rearrangement of the records,
    and their lengths sum to the number of tracked paths that are
    regular files. *)
Theorem collect_files_buckets_partition
    (lower : pystr -> pystr) (suffix : Path -> pystr)
    (utf8_decode : bytes -> result pystr)
    (fs : FileSystem) (root : Path) (max_bytes : Z)
    (infos : list FileInfo) :
  collect_files lower suffix utf8_decode fs root max_bytes = ret infos ->
  exists lines,
    fs_ls_files fs root = ret lines
    /\ let files :=
         filter (fun rel => is_regular fs (path_div root rel))
           (sorted (fun s : pystr => s) str_leb (set_of lines)) in
       let st := build_html_stats infos in
       Forall (fun info => hits info = 1) infos
       /\ Permutation
            (rendered st ++ skipped_binary st ++ skipped_large st
             ++ skipped_ignored st) infos
       /\ map path infos = map (path_div root) files
       /\ total_files st = List.length files
       /\ List.length (rendered st) + List.length (skipped_binary st)
          + List.length (skipped_large st) + List.length (skipped_ignored st)
          = List.length files
       /\ List.length files <= List.length lines.
Proof.
  intros H. apply collect_files_inv in H. destruct H as (lines & L & H).
  exists lines. split; [exact L|]. intros files st.
  apply collect_tracked_classified in H. destruct H as [C _].
  fold files in C.
  destruct (buckets_partition_candidates C) as (H1 & P & M & T & S).
  fold st in P, T, S. rewrite length_map in T, S.
  repeat split; auto.
  unfold files. etransitivity; [apply filter_length_le|].
  rewrite (Permutation_length
             (sorted_perm (fun s : pystr => s) str_leb (set_of lines))).
  clear. induction lines as [|x l IH]; cbn; [lia|].
  destruct (in_set x l); cbn; lia.
Qed.

(** The end-to-end scenario with a fifth tracked path that is gone from
    the working tree: four records, two rendered, one too large, one
    ignored. *)
Lemma collect_files_buckets_partition_witness :
  let st := build_html_stats Demo.records in
  total_files st = 4
  /\ List.length (rendered st) = 2
  /\ List.length (skipped_binary st) = 0
  /\ List.length (skipped_large st) = 1
  /\ List.length (skipped_ignored st) = 1.
Proof.
  assert (H : collect_files ascii_lower Demo.suffix Demo.utf8_decode
                (with_listing Demo.fs (lit "gone.txt" :: Demo.tracked))
                Demo.repo_root Demo.max_bytes
              = ret Demo.records) by reflexivity.
  apply collect_files_buckets_partition in H.
  destruct H as (lines & L & _ & _ & _ & T & _). injection L as <-.
  cbn zeta. split; [exact T|]. repeat split.
Defined.

(** The end-to-end scenario under the default limit. *)
Example scenario_classification :
  map (fun i => (rel i, size i, reason (decision i))) Demo.records
  = [ (lit ".git/config", 60000%Z, lit "ignored");
      (lit "README.md", 5%Z, lit "ok");
      (lit "big.bin", 60000%Z, lit "too_large");
      (lit "src/a.py", 6%Z, lit "ok") ].
Proof. reflexivity. Qed.

(** * Further properties of the code *)

(** ** looks_binary *)

(** X1.  [looks_binary] never raises.  It answers [True] for a file that
    cannot be opened or read, and for a file whose first 8192 bytes are
    not valid UTF-8. *)
Theorem looks_binary_never_raises
    (lower : pystr -> pystr) (suffix : Path -> pystr)
    (utf8_decode : bytes -> result pystr) (fs : FileSystem) (p : Path) :
  exists b,
    looks_binary lower suffix utf8_decode fs p = ret b
    /\ (forall e, fs_read fs p = inl e -> b = true)
    /\ (forall content e,
          fs_read fs p = ret content ->
          utf8_decode (firstn (N.to_nat 8192) content) = inl e ->
          b = true).
Proof.
  unfold looks_binary.
  destruct (in_set _ BINARY_EXTENSIONS).
  { exists true. repeat split; reflexivity. }
  destruct (fs_read fs p) as [e|whole]; cbn.
  { exists true. repeat split; reflexivity. }
  destruct (existsb _ _); cbn.
  { exists true. repeat split; reflexivity. }
  destruct (utf8_decode _) as [e|text] eqn:U; cbn.
  - exists true. repeat split; reflexivity.
  - exists false. split; [reflexivity|]. split; [discriminate|].
    intros content e R. injection R as <-. rewrite U. discriminate.
Qed.

Lemma looks_binary_never_raises_witness :
  looks_binary ascii_lower Demo.suffix Demo.utf8_decode Demo.fs
    (path_div Demo.repo_root (lit "locked.txt")) = ret true.
Proof.
  destruct (looks_binary_never_raises ascii_lower Demo.suffix
              Demo.utf8_decode Demo.fs
              (path_div Demo.repo_root (lit "locked.txt")))
    as (b & -> & Unreadable & _).
  f_equal.
  apply (Unreadable (Raise PermissionError
                       (lit "[Errno 13] Permission denied"))).
  reflexivity.
Defined.

(** X2.  [looks_binary] answers [False] exactly when the lower-cased
    suffix is not on the denylist, the file can be read, its first 8192
    bytes hold no NUL byte and they decode as UTF-8. *)
Theorem looks_binary_text_iff
    (lower : pystr -> pystr) (suffix : Path -> pystr)
    (utf8_decode : bytes -> result pystr) (fs : FileSystem) (p : Path) :
  looks_binary lower suffix utf8_decode fs p = ret false
  <-> in_set (lower (suffix p)) BINARY_EXTENSIONS = false
      /\ exists content text,
           fs_read fs p = ret content
           /\ existsb (N.eqb 0) (firstn (N.to_nat 8192) content) = false
           /\ utf8_decode (firstn (N.to_nat 8192) content) = ret text.
Proof.
  unfold looks_binary. split.
  - destruct (in_set _ BINARY_EXTENSIONS); [discriminate|].
    destruct (fs_read fs p) as [e|whole]; cbn; [discriminate|].
    destruct (existsb _ _) eqn:Z; cbn; [discriminate|].
    destruct (utf8_decode _) as [e|text] eqn:U; cbn; [discriminate|].
    intros _. split; [reflexivity|]. exists whole, text. auto.
  - intros (D & content & text & R & Z & U).
    rewrite D, R. unfold bind, ret. cbv beta iota zeta. rewrite Z, U.
    reflexivity.
Qed.

Lemma looks_binary_text_iff_witness :
  looks_binary ascii_lower Demo.suffix Demo.utf8_decode Demo.fs
    (path_div Demo.repo_root (lit "README.md")) = ret false.
Proof.
  apply looks_binary_text_iff. split; [reflexivity|].
  exists (lit "# hi" ++ [10%N]), (lit "# hi" ++ [10%N]).
  repeat split.
Defined.

(** X3.  Only the first 8192 bytes of a file are looked at: two disks
    whose files agree on that prefix get the same answer. *)
Theorem looks_binary_reads_prefix_only
    (lower : pystr -> pystr) (suffix : Path -> pystr)
    (utf8_decode : bytes -> result pystr) (fs fs' : FileSystem) (p : Path)
    (content content' : bytes) :
  fs_read fs p = ret content ->
  fs_read fs' p = ret content' ->
  firstn (N.to_nat 8192) content = firstn (N.to_nat 8192) content' ->
  looks_binary lower suffix utf8_decode fs p
  = looks_binary lower suffix utf8_decode fs' p.
Proof.
  intros R R' E. unfold looks_binary. rewrite R, R'.
  unfold bind, ret. cbv beta iota zeta. now rewrite E.
Qed.

(** A NUL byte or an invalid byte after the first 8192 bytes goes
    unnoticed. *)
Lemma looks_binary_reads_prefix_only_witness :
  looks_binary ascii_lower Demo.suffix Demo.utf8_decode
    (Demo.padded_fs [0%N]) [lit "notes.txt"]
  = looks_binary ascii_lower Demo.suffix Demo.utf8_decode
      (Demo.padded_fs [255%N]) [lit "notes.txt"].
Proof.
  apply (@looks_binary_reads_prefix_only ascii_lower Demo.suffix
           Demo.utf8_decode (Demo.padded_fs [0%N]) (Demo.padded_fs [255%N])
           [lit "notes.txt"]
           (repeat 97%N (N.to_nat 8192) ++ [0%N])
           (repeat 97%N (N.to_nat 8192) ++ [255%N]));
    [reflexivity | reflexivity | vm_compute; reflexivity].
Defined.

(** ** split, join and substring search *)

Lemma split_cons (sep : char) (s : pystr) :
  exists h t, split sep s = h :: t.
Proof.
  induction s as [|c s (h & t & E)]; cbn; [now exists [], []|].
  destruct (char_eqb c sep); [now eexists; eexists|].
  rewrite E. now eexists; eexists.
Qed.

Lemma split_app_sep (sep : char) (x y : pystr) :
  split sep (x ++ sep :: y) = split sep x ++ split sep y.
Proof.
  induction x as [|c x IH]; cbn.
  - unfold char_eqb. now rewrite N.eqb_refl.
  - destruct (char_eqb c sep); rewrite IH; [reflexivity|].
    destruct (split_cons sep x) as (h & t & ->). reflexivity.
Qed.

Lemma split_without_sep (sep : char) (s : pystr) :
  forallb (fun c => negb (char_eqb c sep)) s = true ->
  split sep s = [s].
Proof.
  induction s as [|c s IH]; cbn; [reflexivity|].
  intros H. apply andb_true_iff in H. destruct H as [C H].
  apply negb_true_iff in C. rewrite C, (IH H). reflexivity.
Qed.

Lemma split_parts_without_sep (sep : char) (s : pystr) :
  Forall (fun part => forallb (fun c => negb (char_eqb c sep)) part = true)
    (split sep s).
Proof.
  induction s as [|c s IH]; cbn; [repeat constructor|].
  destruct (char_eqb c sep) eqn:C; [now constructor|].
  destruct (split sep s) as [|h t]; [repeat constructor; cbn; now rewrite C|].
  inversion IH; subst. constructor; [|assumption].
  cbn. now rewrite C.
Qed.

Lemma join_cons2 (sep x y : pystr) (l : list pystr) :
  join sep (x :: y :: l) = x ++ sep ++ join sep (y :: l).
Proof. reflexivity. Qed.

Lemma join_split (sep : char) (s : pystr) :
  join [sep] (split sep s) = s.
Proof.
  induction s as [|c s IH]; cbn [split]; [reflexivity|].
  destruct (split_cons sep s) as (h & t & E). rewrite E in *.
  destruct (char_eqb c sep) eqn:C.
  - apply char_eqb_eq in C. subst c.
    rewrite join_cons2, IH. reflexivity.
  - destruct t as [|y t].
    + cbn in *. now rewrite IH.
    + rewrite join_cons2 in *. rewrite <- IH. reflexivity.
Qed.

Lemma startswith_inv (s p : pystr) :
  startswith s p = true -> exists rest, s = p ++ rest.
Proof.
  revert s. induction p as [|c p IH]; intros s H.
  - exists s. reflexivity.
  - destruct s as [|d s]; [discriminate|]. cbn in H.
    apply andb_true_iff in H. destruct H as [C H].
    apply char_eqb_eq in C. subst d.
    destruct (IH s H) as [rest ->]. now exists rest.
Qed.

Lemma contains_inv (needle hay : pystr) :
  contains needle hay = true ->
  exists before after, hay = before ++ needle ++ after.
Proof.
  induction hay as [|c hay IH]; rewrite contains_unfold; intros H;
    apply orb_true_iff in H; destruct H as [H|H].
  - apply startswith_inv in H. destruct H as [rest ->]. now exists [], rest.
  - discriminate.
  - apply startswith_inv in H. destruct H as [rest ->]. now exists [], rest.
  - destruct (IH H) as (before & after & ->). now exists (c :: before), after.
Qed.

(** ** The [.git] test *)

(** X4.  The test of [decide_file] for version-control paths holds
    exactly when one of the slash-separated components of the relative
    path is [.git]; the separate [startswith] test adds nothing. *)
Theorem is_ignored_iff_git_component (rel : pystr) :
  (is_ignored rel = true <-> In (lit ".git") (split 47%N rel))
  /\ is_ignored rel = contains (lit "/.git/") (lit "/" ++ rel ++ lit "/").
Proof.
  assert (Fwd : is_ignored rel = true -> In (lit ".git") (split 47%N rel)).
  { unfold is_ignored. intros H. apply orb_true_iff in H.
    destruct H as [H|H].
    - apply contains_inv in H. destruct H as (before & after & E).
      apply (f_equal (split 47%N)) in E.
      change (lit "/" ++ rel ++ lit "/")
        with ([] ++ 47%N :: (rel ++ 47%N :: [])) in E.
      change (before ++ lit "/.git/" ++ after)
        with (before ++ 47%N :: (lit ".git" ++ 47%N :: after)) in E.
      rewrite !split_app_sep in E.
      assert (G : forall l,
                 l = split 47%N before ++ split 47%N (lit ".git")
                     ++ split 47%N after ->
                 In (lit ".git") l).
      { intros l ->. apply in_or_app. right. apply in_or_app. left.
        cbn. auto. }
      specialize (G _ E). apply in_app_or in G. destruct G as [G|G].
      + cbn in G. destruct G as [G|[]]. discriminate G.
      + apply in_app_or in G. destruct G as [G|G]; [exact G|].
        cbn in G. destruct G as [G|[]]. discriminate G.
    - apply startswith_inv in H. destruct H as [rest ->].
      change (lit ".git/" ++ rest) with (lit ".git" ++ 47%N :: rest).
      rewrite split_app_sep. apply in_or_app. left. cbn. auto. }
  assert (Bwd : In (lit ".git") (split 47%N rel) ->
                contains (lit "/.git/") (lit "/" ++ rel ++ lit "/") = true).
  { intros G. apply in_split in G. destruct G as (pre & post & E).
    rewrite <- (join_split 47%N rel), E, join_app_cons.
    destruct (sep_before_parts pre) as [q Q]. unfold os_sep in Q.
    assert (J : exists rest,
               join [47%N] (lit ".git" :: post) ++ lit "/"
               = lit ".git" ++ [47%N] ++ rest).
    { destruct post as [|x post]; [now exists []|].
      exists (join [47%N] (x :: post) ++ lit "/").
      cbn [join]. now rewrite <- !app_assoc. }
    destruct J as [rest J].
    set (c := concat (map (fun y => y ++ [47%N]) pre)) in *.
    set (j := join [47%N] (lit ".git" :: post)) in *.
    assert (W : lit "/" ++ (c ++ j) ++ lit "/"
                = q ++ lit "/.git/" ++ rest).
    { transitivity (lit "/" ++ c ++ (j ++ lit "/"));
        [now rewrite <- app_assoc|].
      transitivity (lit "/" ++ c ++ (lit ".git" ++ [47%N] ++ rest));
        [do 2 f_equal; exact J|].
      transitivity ((q ++ [47%N]) ++ lit ".git" ++ [47%N] ++ rest);
        [|now rewrite <- app_assoc].
      apply (f_equal (fun l => l ++ lit ".git" ++ [47%N] ++ rest) Q). }
    transitivity (contains (lit "/.git/") (q ++ lit "/.git/" ++ rest));
      [f_equal; exact W | apply contains_app]. }
  split.
  - split; [exact Fwd|]. intros G. unfold is_ignored.
    now rewrite (Bwd G).
  - unfold is_ignored.
    destruct (contains (lit "/.git/") (lit "/" ++ rel ++ lit "/")) eqn:C;
      [reflexivity|].
    destruct (startswith rel (lit ".git/")) eqn:S; [|reflexivity].
    assert (I : is_ignored rel = true)
      by (unfold is_ignored; rewrite S; apply orb_true_r).
    pose proof (Bwd (Fwd I)) as B. congruence.
Qed.

(** A file named [.git], and anything below a nested [.git], is ignored;
    [.gitignore] and [.github] are not. *)
Example is_ignored_samples :
  map is_ignored
    (map lit [".git"; "vendor/lib/.git/HEAD"; ".gitignore";
              ".github/workflows/ci.yml"; "a.git/x"]%string)
  = [true; true; false; false; false].
Proof. reflexivity. Qed.

(** ** More on decide_file *)

Lemma filter_all (A : Type) (f : A -> bool) (l : list A) :
  forallb f l = true -> filter f l = l.
Proof.
  induction l as [|x l IH]; cbn; [reflexivity|].
  intros H. apply andb_true_iff in H. destruct H as [-> H].
  now rewrite IH.
Qed.

(** A relative path without empty or [.] components is kept as it is by
    the division of paths. *)
Lemma path_div_normal (root : Path) (rel : pystr) :
  forallb (fun c => negb (str_eqb c [] || str_eqb c (lit ".")))
    (split 47%N rel) = true ->
  path_div root rel = root ++ split 47%N rel.
Proof.
  intros H. unfold path_div, os_sep. rewrite (filter_all _ _ H).
  destruct rel as [|c rel]; [reflexivity|].
  cbn [startswith]. destruct (char_eqb 47%N c) eqn:C; [|reflexivity].
  apply char_eqb_eq in C. subst c. cbn in H. discriminate H.
Qed.

(** X5.  A returned record is marked for inclusion exactly when its path
    does not pass the [.git] test, its size is at most [max_bytes] and
    [looks_binary] answers [False]. *)
Theorem decide_file_include_iff
    (lower : pystr -> pystr) (suffix : Path -> pystr)
    (utf8_decode : bytes -> result pystr)
    (fs : FileSystem) (p root : Path) (max_bytes : Z) (info : FileInfo) :
  decide_file lower suffix utf8_decode fs p root max_bytes = ret info ->
  (include (decision info) = true
   <-> is_ignored (rel info) = false
       /\ (size info <= max_bytes)%Z
       /\ looks_binary lower suffix utf8_decode fs p = ret false).
Proof.
  intros H. apply decide_file_inv in H.
  destruct H as (relative & b & _ & B & _ & _ & _ & D).
  rewrite D, B, Z.gtb_ltb.
  destruct (is_ignored (rel info)); cbn.
  { split; [discriminate|]. now intros [? _]. }
  destruct (Z.ltb_spec max_bytes (size info)); cbn.
  { split; [discriminate|]. intros (_ & L & _). lia. }
  destruct b; cbn.
  - split; [discriminate|]. now intros (_ & _ & ?).
  - repeat split; auto.
Qed.

Lemma decide_file_include_iff_witness :
  exists info,
    Demo.decide "src/a.py" = ret info /\ include (decision info) = true.
Proof.
  destruct (Demo.decide "src/a.py") as [e|info] eqn:H;
    [vm_compute in H; discriminate|].
  exists info. split; [reflexivity|].
  apply (decide_file_include_iff _ _ _ _ _ _ _ H).
  vm_compute in H. injection H as <-. repeat split.
  cbn. discriminate.
Defined.

(** X6.  For a tracked path without empty or [.] components, the record
    of the file at [repo_root / rel] carries that very path and the
    string [rel] unchanged. *)
Theorem decide_file_keeps_rel
    (lower : pystr -> pystr) (suffix : Path -> pystr)
    (utf8_decode : bytes -> result pystr)
    (fs : FileSystem) (root : Path) (tracked_rel : pystr) (max_bytes : Z)
    (info : FileInfo) :
  forallb (fun c => negb (str_eqb c [] || str_eqb c (lit ".")))
    (split 47%N tracked_rel) = true ->
  decide_file lower suffix utf8_decode fs (path_div root tracked_rel) root
    max_bytes = ret info ->
  rel info = tracked_rel /\ path info = root ++ split 47%N tracked_rel.
Proof.
  intros N H. rewrite (path_div_normal root _ N) in H.
  apply decide_file_inv in H.
  destruct H as (relative & b & R & _ & P & L & _ & _).
  rewrite relative_to_app in R. injection R as <-.
  split; [|exact P]. rewrite L. unfold path_to_str, os_sep.
  destruct (split_cons 47%N tracked_rel) as (h & t & E).
  rewrite E, <- E. apply join_split.
Qed.

Lemma decide_file_keeps_rel_witness :
  exists info,
    Demo.decide "src/a.py" = ret info /\ rel info = lit "src/a.py".
Proof.
  destruct (Demo.decide "src/a.py") as [e|info] eqn:H;
    [vm_compute in H; discriminate|].
  exists info. split; [reflexivity|].
  refine (proj1 (@decide_file_keeps_rel _ _ _ _ _ (lit "src/a.py") _ _ _ H)).
  reflexivity.
Defined.

(** X7.  The only exceptions that leave [decide_file] are the
    [ValueError] of a path outside the root and a failure of [stat] other
    than [FileNotFoundError]; nothing raised while the file is read gets
    out. *)
Theorem decide_file_raises_only
    (lower : pystr -> pystr) (suffix : Path -> pystr)
    (utf8_decode : bytes -> result pystr)
    (fs : FileSystem) (p root : Path) (max_bytes : Z) (e : exn) :
  decide_file lower suffix utf8_decode fs p root max_bytes = inl e ->
  (relative_to p root = inl e /\ exn_cls e = ValueError)
  \/ (fs_stat_size fs p = inl e /\ exn_cls e <> FileNotFoundError).
Proof.
  unfold decide_file. intros H.
  destruct (relative_to p root) as [e'|relative] eqn:R.
  { left. cbn in H. injection H as ->. split; [reflexivity|].
    clear - R. revert p R.
    induction root as [|r root IH]; intros [|c p] R; cbn in R;
      try discriminate R.
    - now injection R as <-.
    - destruct (str_eqb r c); [eauto|now injection R as <-]. }
  right. cbn [bind] in H.
  destruct (fs_stat_size fs p) as [e'|sz] eqn:S; cbn in H.
  - destruct e' as [c msg].
    destruct c; cbn in H;
      try (injection H as <-; split; [reflexivity|cbn; discriminate]).
    exfalso.
    destruct (is_ignored _); [discriminate|].
    destruct (0 >? max_bytes)%Z; [discriminate|].
    destruct (looks_binary_total lower suffix utf8_decode fs p) as [b B].
    rewrite B in H. destruct b; discriminate.
  - exfalso.
    destruct (is_ignored _); [discriminate|].
    destruct (sz >? max_bytes)%Z; [discriminate|].
    destruct (looks_binary_total lower suffix utf8_decode fs p) as [b B].
    rewrite B in H. destruct b; discriminate.
Qed.

Lemma decide_file_raises_only_witness :
  fs_stat_size Demo.fs (path_div Demo.repo_root (lit "sealed/x.txt"))
  = inl (Raise PermissionError (lit "[Errno 13] Permission denied")).
Proof.
  destruct (@decide_file_raises_only ascii_lower Demo.suffix
              Demo.utf8_decode Demo.fs
              (path_div Demo.repo_root (lit "sealed/x.txt"))
              Demo.repo_root Demo.max_bytes
              (Raise PermissionError (lit "[Errno 13] Permission denied"))
              eq_refl) as [[V _]|[S _]].
  - vm_compute in V. discriminate.
  - exact S.
Defined.

(** X8.  When the decision is [ignored] or [too_large] the content of the
    file plays no part: any disk that gives the same [stat] answer leads
    to the same record. *)
Theorem decide_file_early_decisions_skip_read
    (lower : pystr -> pystr) (suffix : Path -> pystr)
    (utf8_decode : bytes -> result pystr)
    (fs fs' : FileSystem) (p root : Path) (max_bytes : Z)
    (info : FileInfo) :
  fs_stat_size fs' p = fs_stat_size fs p ->
  decide_file lower suffix utf8_decode fs p root max_bytes = ret info ->
  In (reason (decision info)) [lit "ignored"; lit "too_large"] ->
  decide_file lower suffix utf8_decode fs' p root max_bytes = ret info.
Proof.
  unfold decide_file. intros S H Rn. rewrite S.
  destruct (relative_to p root) as [e|relative]; [discriminate|].
  cbn [bind] in *.
  destruct (try_except (fs_stat_size fs p) _ _) as [e|sz];
    [discriminate|].
  cbn [bind] in *.
  destruct (is_ignored _); [exact H|].
  destruct (sz >? max_bytes)%Z; [exact H|].
  exfalso.
  destruct (looks_binary lower suffix utf8_decode fs p) as [e|[|]];
    cbn in H; try discriminate H; injection H as <-; cbn in Rn;
    destruct Rn as [Rn|[Rn|[]]]; discriminate Rn.
Qed.

Lemma decide_file_early_decisions_skip_read_witness :
  Demo.outcome
    (decide_file ascii_lower Demo.suffix Demo.utf8_decode
       (Demo.padded_fs [0%N]) [lit "notes.txt"] [] 100)
  = Some (9000%Z, false, lit "too_large").
Proof.
  rewrite (@decide_file_early_decisions_skip_read ascii_lower Demo.suffix
             Demo.utf8_decode (Demo.padded_fs []) (Demo.padded_fs [0%N])
             [lit "notes.txt"] [] 100
             (Build_FileInfo [lit "notes.txt"] (lit "notes.txt") 9000
                too_large_decision));
    [reflexivity | reflexivity | vm_compute; reflexivity | cbn; auto].
Defined.

(** ** More on collect_files *)

Lemma str_leb_antisym (a b : pystr) :
  str_leb a b = true -> str_leb b a = true -> a = b.
Proof.
  revert b. induction a as [|x a IH]; intros [|y b]; cbn; try discriminate;
    [reflexivity|].
  destruct (N.ltb_spec x y), (N.ltb_spec y x), (N.eqb_spec x y),
    (N.eqb_spec y x); try discriminate; try lia.
  intros A B. subst y. now rewrite (IH b A B).
Qed.

(** Two sorted rearrangements of the same strings are the same list. *)
Lemma sorted_strings_unique (l1 l2 : list pystr) :
  StronglySorted (fun a b => str_leb a b = true) l1 ->
  StronglySorted (fun a b => str_leb a b = true) l2 ->
  Permutation l1 l2 -> l1 = l2.
Proof.
  intros S1. revert l2.
  induction S1 as [|x l1 S1 IH F1]; intros l2 S2 P.
  - apply Permutation_nil in P. now subst.
  - destruct S2 as [|y l2 S2 F2].
    + apply Permutation_sym, Permutation_nil in P. discriminate.
    + assert (E : x = y).
      { assert (Ix : In x (y :: l2))
          by (apply (Permutation_in _ P); now left).
        assert (Iy : In y (x :: l1))
          by (apply (Permutation_in _ (Permutation_sym P)); now left).
        destruct Ix as [->|Ix]; [reflexivity|].
        destruct Iy as [->|Iy]; [reflexivity|].
        rewrite Forall_forall in F1, F2.
        apply str_leb_antisym; auto. }
      subst y. f_equal. apply IH; [exact S2|].
      exact (Permutation_cons_inv P).
Qed.

Lemma sorted_strings_perm (l1 l2 : list pystr) :
  Permutation l1 l2 ->
  sorted (fun s : pystr => s) str_leb l1
  = sorted (fun s : pystr => s) str_leb l2.
Proof.
  intros P. apply sorted_strings_unique.
  - apply (sorted_ordered (fun s : pystr => s) str_leb
             str_leb_total str_leb_trans).
  - apply (sorted_ordered (fun s : pystr => s) str_leb
             str_leb_total str_leb_trans).
  - rewrite !sorted_perm. exact P.
Qed.

Lemma in_set_In (x : pystr) (l : list pystr) :
  in_set x l = true <-> In x l.
Proof.
  unfold in_set. rewrite existsb_exists. split.
  - intros (y & I & E). apply str_eqb_eq in E. now subst.
  - intros I. exists x. split; [exact I|apply str_eqb_refl].
Qed.

Lemma set_of_In (x : pystr) (l : list pystr) :
  In x (set_of l) <-> In x l.
Proof.
  induction l as [|y l IH]; cbn; [tauto|].
  destruct (in_set y l) eqn:S.
  - apply in_set_In in S. rewrite IH. split; [auto|].
    intros [<-|I]; auto.
  - cbn. now rewrite IH.
Qed.

Lemma set_of_NoDup (l : list pystr) : NoDup (set_of l).
Proof.
  induction l as [|y l IH]; cbn; [constructor|].
  destruct (in_set y l) eqn:S; [exact IH|].
  constructor; [|exact IH]. rewrite set_of_In. intros I.
  apply in_set_In in I. congruence.
Qed.

Lemma set_of_length (l : list pystr) :
  List.length (set_of l) <= List.length l.
Proof.
  induction l as [|y l IH]; cbn; [lia|].
  destruct (in_set y l); cbn; lia.
Qed.

Section CollectMore.

Variable lower : pystr -> pystr.
Variable suffix : Path -> pystr.
Variable utf8_decode : bytes -> result pystr.
Variable fs : FileSystem.
Variable root : Path.
Variable max_bytes : Z.

Lemma collect_loop_failure (rels : list pystr) (acc : list FileInfo)
    (e : exn) :
  fold_left
    (fun (acc : result (list FileInfo)) (rel : pystr) =>
       infos <- acc ;;
       let p := path_div root rel in
       is_file <- fs_is_file fs p ;;
       if is_file then
         info <- decide_file lower suffix utf8_decode fs p root max_bytes ;;
         ret (infos ++ [info])
       else ret infos)
    rels (ret acc) = inl e ->
  exists rel,
    In rel rels
    /\ (fs_is_file fs (path_div root rel) = inl e
        \/ (fs_is_file fs (path_div root rel) = ret true
            /\ decide_file lower suffix utf8_decode fs (path_div root rel)
                 root max_bytes = inl e)).
Proof.
  revert acc. induction rels as [|rel rels IH]; intros acc H;
    [discriminate|].
  cbn [fold_left bind ret] in H.
  destruct (fs_is_file fs (path_div root rel)) as [e'|[|]] eqn:F;
    cbn [bind ret] in H.
  - rewrite collect_loop_raised in H. injection H as ->.
    exists rel. split; [now left|now left].
  - destruct (decide_file lower suffix utf8_decode fs (path_div root rel)
                root max_bytes) as [e'|info] eqn:D; cbn [bind ret] in H.
    + rewrite collect_loop_raised in H. injection H as ->.
      exists rel. split; [now left|]. right. now split.
    + destruct (IH _ H) as (r & I & G). exists r. split; [now right|exact G].
  - destruct (IH _ H) as (r & I & G). exists r. split; [now right|exact G].
Qed.

End CollectMore.

Lemma Forall2_map_left (A B C : Type) (f : A -> B) (R : B -> C -> Prop)
    (l : list A) (l' : list C) :
  Forall2 R (map f l) l' -> Forall2 (fun x y => R (f x) y) l l'.
Proof.
  revert l'. induction l as [|x l IH]; intros l' H; inversion H; subst;
    constructor; auto.
Qed.

(** X9.  [collect_files] returns one record per tracked path that is a
    regular file, in the sorted order of the paths; tracked paths that
    are not regular files get no record. *)
Theorem collect_files_one_record_per_file
    (lower : pystr -> pystr) (suffix : Path -> pystr)
    (utf8_decode : bytes -> result pystr)
    (fs : FileSystem) (root : Path) (max_bytes : Z)
    (infos : list FileInfo) :
  collect_files lower suffix utf8_decode fs root max_bytes = ret infos ->
  exists lines,
    fs_ls_files fs root = ret lines
    /\ let tracked := set_of lines in
       let files :=
         filter (fun rel => is_regular fs (path_div root rel))
           (sorted (fun s : pystr => s) str_leb tracked) in
       map path infos = map (path_div root) files
       /\ Forall2 (fun rel info =>
                     decide_file lower suffix utf8_decode fs
                       (path_div root rel) root max_bytes = ret info)
            files infos
       /\ Forall (fun rel => exists b,
                    fs_is_file fs (path_div root rel) = ret b) tracked
       /\ List.length infos <= List.length tracked
       /\ List.length tracked <= List.length lines.
Proof.
  intros H. apply collect_files_inv in H. destruct H as (lines & L & H).
  exists lines. split; [exact L|]. intros tracked files.
  apply collect_tracked_classified in H. destruct H as [H R].
  fold tracked in H, R. fold files in H.
  split; [exact (classified_paths H)|]. split; [|split; [|split]].
  - exact (@Forall2_map_left _ _ _ (path_div root)
             (fun p info =>
                decide_file lower suffix utf8_decode fs p root max_bytes
                = ret info) files infos H).
  - apply (Permutation_Forall
             (sorted_perm (fun s : pystr => s) str_leb tracked)).
    exact R.
  - rewrite <- (Forall2_length H), length_map. unfold files.
    etransitivity; [apply filter_length_le|].
    now rewrite (Permutation_length (sorted_perm _ _ tracked)).
  - apply set_of_length.
Qed.

Lemma collect_files_one_record_per_file_witness :
  map path Demo.records
  = map (path_div Demo.repo_root)
      (map lit [".git/config"; "README.md"; "big.bin"; "src/a.py"]%string).
Proof.
  assert (H : collect_files ascii_lower Demo.suffix Demo.utf8_decode
                (with_listing Demo.fs
                   (lit "not-on-disk.txt" :: lit "README.md" :: Demo.tracked))
                Demo.repo_root Demo.max_bytes
              = ret Demo.records) by reflexivity.
  apply collect_files_one_record_per_file in H.
  destruct H as (lines & L & P & _). injection L as <-. exact P.
Defined.

(** X10.  The records do not depend on the order in which the set of
    tracked paths is iterated, nor on the order or the repetitions of
    the lines that [git ls-files] prints. *)
Theorem collect_files_order_independent
    (lower : pystr -> pystr) (suffix : Path -> pystr)
    (utf8_decode : bytes -> result pystr)
    (fs : FileSystem) (root : Path) (max_bytes : Z) :
  (forall tracked tracked',
     Permutation tracked tracked' ->
     collect_tracked lower suffix utf8_decode fs root max_bytes tracked
     = collect_tracked lower suffix utf8_decode fs root max_bytes tracked')
  /\ (forall lines lines',
        (forall x, In x lines <-> In x lines') ->
        collect_files lower suffix utf8_decode (with_listing fs lines) root
          max_bytes
        = collect_files lower suffix utf8_decode (with_listing fs lines')
            root max_bytes).
Proof.
  assert (A : forall tracked tracked',
    Permutation tracked tracked' ->
    collect_tracked lower suffix utf8_decode fs root max_bytes tracked
    = collect_tracked lower suffix utf8_decode fs root max_bytes tracked').
  { intros tracked tracked' P. unfold collect_tracked.
    now rewrite (sorted_strings_perm P). }
  split; [exact A|].
  intros lines lines' E. unfold collect_files, get_tracked_files.
  cbn [with_listing fs_ls_files bind ret].
  assert (P : Permutation (set_of lines) (set_of lines')).
  { apply NoDup_Permutation; try apply set_of_NoDup.
    intros x. rewrite !set_of_In. apply E. }
  unfold collect_tracked. now rewrite (sorted_strings_perm P).
Qed.

Lemma collect_files_order_independent_witness :
  collect_files ascii_lower Demo.suffix Demo.utf8_decode
    (with_listing Demo.fs (rev Demo.tracked ++ Demo.tracked))
    Demo.repo_root Demo.max_bytes
  = ret Demo.records.
Proof.
  rewrite (proj2 (collect_files_order_independent ascii_lower Demo.suffix
                    Demo.utf8_decode Demo.fs Demo.repo_root Demo.max_bytes)
             (rev Demo.tracked ++ Demo.tracked) Demo.tracked).
  - reflexivity.
  - intros x. rewrite in_app_iff, <- in_rev. tauto.
Defined.

(** X11.  When [collect_files] raises, the exception comes from
    [git ls-files], or from [is_file] on a tracked path, or from
    [decide_file] on a tracked path that [is_file] took for a regular
    file. *)
Theorem collect_files_failure_source
    (lower : pystr -> pystr) (suffix : Path -> pystr)
    (utf8_decode : bytes -> result pystr)
    (fs : FileSystem) (root : Path) (max_bytes : Z) (e : exn) :
  collect_files lower suffix utf8_decode fs root max_bytes = inl e ->
  fs_ls_files fs root = inl e
  \/ exists lines rel,
       fs_ls_files fs root = ret lines
       /\ In rel lines
       /\ (fs_is_file fs (path_div root rel) = inl e
           \/ (fs_is_file fs (path_div root rel) = ret true
               /\ decide_file lower suffix utf8_decode fs (path_div root rel)
                    root max_bytes = inl e)).
Proof.
  unfold collect_files, get_tracked_files. intros H.
  destruct (fs_ls_files fs root) as [e'|lines]; cbn [bind ret] in H.
  - left. now injection H as ->.
  - right. apply collect_loop_failure in H.
    destruct H as (rel & I & G). exists lines, rel.
    split; [reflexivity|]. split; [|exact G].
    apply set_of_In.
    apply (Permutation_in _
             (sorted_perm (fun s : pystr => s) str_leb (set_of lines))).
    exact I.
Qed.

(** A directory that may not be searched makes [is_file] raise, and the
    run stops there. *)
Lemma collect_files_failure_source_witness :
  exists rel,
    In rel (map lit ["README.md"; "sealed/x.txt"]%string)
    /\ fs_is_file Demo.fs (path_div Demo.repo_root rel) = Demo.denied.
Proof.
  destruct (@collect_files_failure_source ascii_lower Demo.suffix
              Demo.utf8_decode
              (with_listing Demo.fs
                 (map lit ["README.md"; "sealed/x.txt"]%string))
              Demo.repo_root Demo.max_bytes
              (Raise PermissionError (lit "[Errno 13] Permission denied"))
              eq_refl)
    as [L|(lines & rel & L & I & [F|[F D]])].
  - discriminate L.
  - injection L as <-. exists rel. split; [exact I|exact F].
  - exfalso. injection L as <-.
    destruct I as [<-|[<-|[]]];
      [vm_compute in D; discriminate D | vm_compute in F; discriminate F].
Defined.

(** X12.  For classified records the numbers printed by [main] agree with
    the lists of [build_html]: the rendered count is the length of the
    rendered list and the skipped count is the joint length of the three
    skip lists. *)
Theorem main_counts_match_buckets
    (lower : pystr -> pystr) (suffix : Path -> pystr)
    (utf8_decode : bytes -> result pystr)
    (fs : FileSystem) (root : Path) (max_bytes : Z)
    (cands : list Path) (infos : list FileInfo) :
  classified lower suffix utf8_decode fs root max_bytes cands infos ->
  let st := build_html_stats infos in
  main_counts infos
  = (List.length cands,
     List.length (rendered st),
     List.length (skipped_binary st) + List.length (skipped_large st)
     + List.length (skipped_ignored st)).
Proof.
  intros C st.
  assert (H1 : Forall (fun info => hits info = 1) infos).
  { eapply Forall_impl; [|exact (classified_decisions C)].
    intros info [D|[D|[D|D]]]; unfold hits; rewrite D; reflexivity. }
  pose proof (four_way_partition _ _ _ _ H1) as P.
  apply Permutation_length in P. rewrite !length_app in P.
  unfold main_counts, st, build_html_stats. cbv zeta.
  cbn [rendered skipped_binary skipped_large skipped_ignored].
  assert (S : forall l : list FileInfo,
             list_sum (map (fun _ => 1) l) = List.length l).
  { induction l as [|x l IH]; [reflexivity|].
    cbn [map List.length]. change (list_sum (1 :: ?t)) with (S (list_sum t)).
    now f_equal. }
  rewrite S, (Forall2_length C). f_equal. lia.
Qed.

Lemma main_counts_match_buckets_witness :
  main_counts Demo.records = (4, 2, 2).
Proof.
  rewrite (main_counts_match_buckets demo_records_classified). reflexivity.
Defined.

(** ** More on slugify *)

(** X13.  [slugify] works piece by piece, and every character of a slug
    is alphanumeric, a dash or an underscore. *)
Theorem slugify_app_alphabet (isalnum : char -> bool) (a b : pystr) :
  slugify isalnum (a ++ b) = slugify isalnum a ++ slugify isalnum b
  /\ forallb (fun c => isalnum c || N.eqb c 45 || N.eqb c 95)
       (slugify isalnum a) = true.
Proof.
  rewrite !slugify_map. split; [apply map_app|].
  apply forallb_forall. intros c I. apply in_map_iff in I.
  destruct I as (ch & <- & _). unfold slug_char.
  destruct (isalnum ch || N.eqb ch 45 || N.eqb ch 95) eqn:K; [exact K|].
  cbn. now rewrite orb_true_r.
Qed.

(** X14.  Two paths of the same length that differ only at characters
    which are neither alphanumeric nor a dash nor an underscore get the
    same slug, hence the same anchor. *)
Theorem slugify_collides (isalnum : char -> bool) (a b : pystr) :
  Forall2 (fun c d =>
             c = d
             \/ (isalnum c || N.eqb c 45 || N.eqb c 95 = false
                 /\ isalnum d || N.eqb d 45 || N.eqb d 95 = false)) a b ->
  slugify isalnum a = slugify isalnum b.
Proof.
  intros H. rewrite !slugify_map.
  induction H as [|c d a b [->|[Kc Kd]] _ IH]; cbn [map];
    [reflexivity | now rewrite IH |].
  rewrite IH. unfold slug_char. now rewrite Kc, Kd.
Qed.

Lemma slugify_collides_witness :
  slugify ascii_isalnum (lit "docs/a.b") = slugify ascii_isalnum (lit "docs.a/b").
Proof.
  apply slugify_collides.
  repeat (constructor; [first [now left | right; split; reflexivity]|]).
  constructor.
Defined.

(** ** More on minify_code *)

(** X15.  When the module in charge of the extension is imported and
    returns, [minify_code] returns its output; for [.json] it returns the
    dumped value whenever the text is read and dumped without error. *)
Theorem minify_code_uses_minifier
    (lower : pystr -> pystr)
    (python_minifier rjsmin rcssmin htmlmin : option (pystr -> result pystr))
    (json_value : Type)
    (json_loads : pystr -> result json_value)
    (json_dumps : json_value -> result pystr)
    (text ext out : pystr) :
  let run := minify_code lower python_minifier rjsmin rcssmin htmlmin
               json_loads json_dumps text ext in
  let kind := dict_get MINIFIABLE_EXTENSIONS (lower ext) in
  (forall t f, kind = Some t ->
     module_for python_minifier rjsmin rcssmin htmlmin t = Some (Some f) ->
     f text = ret out -> run = ret out)
  /\ (forall parsed, kind = Some (lit "json") ->
        json_loads text = ret parsed -> json_dumps parsed = ret out ->
        run = ret out).
Proof.
  intros run kind.
  assert (C := minify_code_cases lower python_minifier rjsmin rcssmin htmlmin
                 json_loads json_dumps text ext).
  fold run kind in C. split.
  - intros t f K R F. now rewrite C, K, R, F.
  - intros parsed K L D. rewrite C, K. cbn. unfold json_outcome.
    rewrite L. cbn. now rewrite D.
Qed.

Lemma minify_code_uses_minifier_witness :
  minify_code ascii_lower None None (Some Demo.strip_spaces) None
    Demo.json_loads Demo.json_dumps (lit "a { }") (lit ".CSS")
  = ret (lit "a{}").
Proof.
  apply (proj1 (minify_code_uses_minifier ascii_lower None None
                  (Some Demo.strip_spaces) None Demo.json_loads
                  Demo.json_dumps (lit "a { }") (lit ".CSS") (lit "a{}"))
           (lit "css") Demo.strip_spaces); reflexivity.
Defined.

(** ** More on generate_cxml_text *)

(** X16.  Without any record marked for inclusion the corpus is the empty
    wrapper, two lines. *)
Theorem cxml_without_included_records
    (lower : pystr -> pystr) (suffix : Path -> pystr)
    (decode_replace : bytes -> pystr)
    (python_minifier rjsmin rcssmin htmlmin : option (pystr -> result pystr))
    (json_value : Type)
    (json_loads : pystr -> result json_value)
    (json_dumps : json_value -> result pystr)
    (fs : FileSystem) (infos : list FileInfo) (minify : bool) :
  forallb (fun i => negb (include (decision i))) infos = true ->
  generate_cxml_text lower suffix decode_replace python_minifier rjsmin
    rcssmin htmlmin json_loads json_dumps fs infos minify
  = ret (lit "<documents>" ++ [10%N] ++ lit "</documents>").
Proof.
  intros H. unfold generate_cxml_text. rewrite cxml_lines_closed_form.
  assert (E : filter (fun i => include (decision i)) infos = []).
  { induction infos as [|i infos IH]; [reflexivity|].
    cbn in H |- *. apply andb_true_iff in H. destruct H as [N H].
    apply negb_true_iff in N. rewrite N. now apply IH. }
  rewrite E. reflexivity.
Qed.

Lemma cxml_without_included_records_witness :
  generate_cxml_text ascii_lower Demo.suffix Demo.decode_replace
    None None None None Demo.json_loads Demo.json_dumps Demo.fs
    (filter (fun i => negb (include (decision i))) Demo.records) true
  = ret (lit "<documents>" ++ [10%N] ++ lit "</documents>").
Proof. apply cxml_without_included_records. reflexivity. Defined.

(** X17.  [generate_cxml_text] never raises, whatever the disk and the
    minifiers do, and its line list has two lines plus six per included
    record. *)
Theorem cxml_line_count
    (lower : pystr -> pystr) (suffix : Path -> pystr)
    (decode_replace : bytes -> pystr)
    (python_minifier rjsmin rcssmin htmlmin : option (pystr -> result pystr))
    (json_value : Type)
    (json_loads : pystr -> result json_value)
    (json_dumps : json_value -> result pystr)
    (fs : FileSystem) (infos : list FileInfo) (minify : bool) :
  exists lines,
    generate_cxml_lines lower suffix decode_replace python_minifier rjsmin
      rcssmin htmlmin json_loads json_dumps fs infos minify = ret lines
    /\ generate_cxml_text lower suffix decode_replace python_minifier rjsmin
         rcssmin htmlmin json_loads json_dumps fs infos minify
       = ret (join [10%N] lines)
    /\ List.length lines
       = 2 + 6 * List.length (filter (fun i => include (decision i)) infos).
Proof.
  eexists. split; [apply cxml_lines_closed_form|]. split.
  - unfold generate_cxml_text. now rewrite cxml_lines_closed_form.
  - assert (D : forall (l : list FileInfo) k,
               List.length
                 (flat_map
                    (document_lines lower suffix decode_replace
                       python_minifier rjsmin rcssmin htmlmin json_loads
                       json_dumps fs minify) (enumerate k l))
               = 6 * List.length l).
    { unfold enumerate. induction l as [|i l IH]; intros k; [reflexivity|].
      cbn [List.length seq combine flat_map]. rewrite length_app, IH.
      cbn [List.length document_lines]. lia. }
    rewrite !length_app, D. cbn [List.length]. lia.
Qed.

(** X18.  With minification off the minifier modules and the JSON reader
    play no part in the corpus. *)
Theorem cxml_unminified_ignores_minifiers
    (lower lower' : pystr -> pystr) (suffix : Path -> pystr)
    (decode_replace : bytes -> pystr)
    (python_minifier rjsmin rcssmin htmlmin
     python_minifier' rjsmin' rcssmin' htmlmin'
       : option (pystr -> result pystr))
    (json_value json_value' : Type)
    (json_loads : pystr -> result json_value)
    (json_dumps : json_value -> result pystr)
    (json_loads' : pystr -> result json_value')
    (json_dumps' : json_value' -> result pystr)
    (fs : FileSystem) (infos : list FileInfo) :
  generate_cxml_text lower suffix decode_replace python_minifier rjsmin
    rcssmin htmlmin json_loads json_dumps fs infos false
  = generate_cxml_text lower' suffix decode_replace python_minifier' rjsmin'
      rcssmin' htmlmin' json_loads' json_dumps' fs infos false.
Proof.
  unfold generate_cxml_text. rewrite !cxml_lines_closed_form.
  reflexivity.
Qed.

(** ** More on the tree *)

Section TreeMore.

Variable lower : pystr -> pystr.

Lemma entries_sum_perm (l l' : dict) :
  Permutation l l' ->
  fold_right (fun kv n => S (count_entries (snd kv)) + n) 0 l
  = fold_right (fun kv n => S (count_entries (snd kv)) + n) 0 l'.
Proof.
  induction 1 as [|x l l' _ IH|x y l|l l' l'' _ IH1 _ IH2];
    cbn [fold_right]; lia.
Qed.

Lemma children_line_count (n : nat) (prefix : pystr) (l : dict) :
  Forall (fun kv => forall p,
            List.length (walk_lines lower (snd kv) p [])
            = count_entries (snd kv)) l ->
  forall start,
    List.length (flat_map (child_lines lower n prefix) (enumerate start l))
    = fold_right (fun kv n => S (count_entries (snd kv)) + n) 0 l.
Proof.
  unfold enumerate.
  induction 1 as [|kv l H _ IH]; intros start; [reflexivity|].
  cbn [List.length seq combine flat_map fold_right].
  rewrite length_app, IH. unfold child_lines. cbn [fst snd List.length].
  now rewrite H.
Qed.

Lemma walk_line_count (t : tree) (prefix : pystr) :
  List.length (walk_lines lower t prefix []) = count_entries t.
Proof.
  revert prefix. induction t as [|d Hd] using tree_induction; intros prefix.
  - reflexivity.
  - rewrite walk_children. cbn [app count_entries].
    rewrite (entries_sum_perm
               (Permutation_sym
                  (sorted_perm
                     (fun kv : pystr * tree =>
                        (is_None (snd kv), lower (fst kv))) key_leb d))).
    apply children_line_count.
    apply (Permutation_Forall
             (Permutation_sym
                (sorted_perm
                   (fun kv : pystr * tree =>
                      (is_None (snd kv), lower (fst kv))) key_leb d))).
    exact Hd.
Qed.

Lemma startswith_app_left (s p q : pystr) :
  startswith s (p ++ q) = true -> startswith s p = true.
Proof.
  intros H. apply startswith_inv in H. destruct H as [rest ->].
  rewrite <- app_assoc. apply startswith_app.
Qed.

Lemma walk_lines_carry_prefix (t : tree) (prefix : pystr) :
  Forall (fun line => startswith line prefix = true)
    (walk_lines lower t prefix []).
Proof.
  revert prefix. induction t as [|d Hd] using tree_induction; intros prefix.
  - constructor.
  - rewrite walk_children. cbn [app].
    assert (Hs : Forall (fun kv => forall p,
                           Forall (fun line => startswith line p = true)
                             (walk_lines lower (snd kv) p []))
                   (sorted_items lower d)).
    { apply (Permutation_Forall
               (Permutation_sym
                  (sorted_perm
                     (fun kv : pystr * tree =>
                        (is_None (snd kv), lower (fst kv))) key_leb d))).
      exact Hd. }
    generalize (List.length (sorted_items lower d)) as n. intros n.
    unfold enumerate. generalize 0 as start.
    induction Hs as [|kv l H _ IH]; intros start; [constructor|].
    cbn [List.length seq combine flat_map]. apply Forall_app. split.
    + unfold child_lines. cbn [fst snd]. constructor.
      * apply startswith_app.
      * eapply Forall_impl; [|apply H]. intros line.
        apply startswith_app_left.
    + apply IH.
Qed.

Lemma walk_loop_frame
    (walk_subtree : dict -> pystr -> list pystr -> list pystr * option exn)
    (n : nat) (prefix : pystr) (rest : list (nat * (pystr * tree))) :
  (forall sub p ls,
     walk_subtree sub p ls
     = (ls ++ fst (walk_subtree sub p []), snd (walk_subtree sub p []))) ->
  forall lines,
    walk_loop walk_subtree n prefix rest lines
    = (lines ++ fst (walk_loop walk_subtree n prefix rest []),
       snd (walk_loop walk_subtree n prefix rest [])).
Proof.
  intros H. induction rest as [|[i [name subtree]] rest IH]; intros lines.
  - cbn. now rewrite app_nil_r.
  - cbn [walk_loop app]. destruct subtree as [|sub].
    + rewrite IH. rewrite (IH [_]). cbn [fst snd].
      now rewrite <- app_assoc.
    + rewrite H. rewrite (H sub _ [_]).
      destruct (snd (walk_subtree sub _ [])) as [e|].
      * now rewrite <- app_assoc.
      * rewrite IH. rewrite (IH ([_] ++ _)). cbn [fst snd].
        now rewrite <- !app_assoc.
Qed.

Lemma walk_frame (frames : nat) :
  forall node prefix lines,
    walk lower frames node prefix lines
    = (lines ++ fst (walk lower frames node prefix []),
       snd (walk lower frames node prefix [])).
Proof.
  induction frames as [|frames IH]; intros node prefix lines.
  - cbn. now rewrite app_nil_r.
  - cbn [walk]. destruct node as [|x node].
    + apply walk_loop_frame. exact IH.
    + destruct frames as [|frames'].
      * cbn. now rewrite app_nil_r.
      * apply walk_loop_frame. exact IH.
Qed.

(** X21.  Every line written for the entries below a directory starts
    with the prefix handed down to that directory, also when the walk is
    cut short by the recursion limit. *)
Theorem tree_lines_carry_prefix (frames : nat) (node : dict)
    (prefix : pystr) :
  Forall (fun line => startswith line prefix = true)
    (fst (walk lower frames node prefix []))
  /\ forall t,
       Forall (fun line => startswith line prefix = true)
         (walk_lines lower t prefix []).
Proof.
  split; [|intros t; apply walk_lines_carry_prefix].
  destruct (walk_written lower frames node prefix []) as [r R].
  pose proof (walk_lines_carry_prefix (Dir node) prefix) as F.
  cbn [app] in R. rewrite R in F. apply Forall_app in F. apply F.
Qed.

End TreeMore.

(** X19.  [walk] leaves the lines already collected untouched and only
    appends to them, whether it returns or raises: the lines it adds and
    the way it ends do not depend on the lines collected before. *)
Theorem walk_only_appends (lower : pystr -> pystr) (frames : nat)
    (node : dict) (t : tree) (prefix : pystr) (lines : list pystr) :
  walk lower frames node prefix lines
  = (lines ++ fst (walk lower frames node prefix []),
     snd (walk lower frames node prefix []))
  /\ walk_lines lower t prefix lines = lines ++ walk_lines lower t prefix [].
Proof.
  split.
  - apply walk_frame.
  - destruct t as [|d].
    + cbn. now rewrite app_nil_r.
    + rewrite (walk_children lower d prefix lines).
      now rewrite (walk_children lower d prefix []).
Qed.

(** X20.  When [walk] returns, which it does when the recursion limit
    leaves it enough frames, the rendering has exactly one line per entry
    of the tree, on all levels together, after the line of the root name.
    When it raises instead, the exception is a [RecursionError] and no
    more than these lines have been written. *)
Theorem tree_one_line_per_entry (lower : pystr -> pystr) (frames : nat)
    (node : dict) (root_name prefix : pystr) :
  (frames_needed (Dir node) <= frames ->
   exists lines,
     walk lower frames node prefix [root_name] = (lines, None)
     /\ List.length lines = 1 + count_entries (Dir node))
  /\ (snd (walk lower frames node prefix [root_name]) = None ->
      List.length (fst (walk lower frames node prefix [root_name]))
      = 1 + count_entries (Dir node))
  /\ (frames < frames_needed (Dir node) ->
      exists e,
        snd (walk lower frames node prefix [root_name]) = Some e
        /\ exn_cls e = RecursionError
        /\ List.length (fst (walk lower frames node prefix [root_name]))
           <= 1 + count_entries (Dir node)).
Proof.
  assert (C : List.length ([root_name]
                           ++ walk_lines lower (Dir node) prefix [])
              = 1 + count_entries (Dir node))
    by (rewrite length_app, walk_line_count; reflexivity).
  split; [|split].
  - intros N. eexists. split; [apply walk_enough; exact N|exact C].
  - intros R. apply walk_returned in R. destruct R as [_ ->]. exact C.
  - intros N. destruct (walk_too_deep lower prefix [root_name] N) as [e E].
    exists e. split; [exact E|]. split.
    + eapply walk_class. exact E.
    + destruct (walk_written lower frames node prefix [root_name]) as [r R].
      rewrite R, length_app in C. lia.
Qed.

(** The tree of the demo listing has nine entries; with four frames the
    ten lines are written, with three the walk stops with a
    [RecursionError] before the last of them. *)
Lemma tree_one_line_per_entry_witness :
  (exists lines,
     walk ascii_lower 4 Demo.tree [] [lit "repo"] = (lines, None)
     /\ List.length lines = 10)
  /\ exists e,
       snd (walk ascii_lower 3 Demo.tree [] [lit "repo"]) = Some e
       /\ exn_cls e = RecursionError
       /\ List.length (fst (walk ascii_lower 3 Demo.tree [] [lit "repo"]))
          <= 10.
Proof.
  split.
  - destruct (tree_one_line_per_entry ascii_lower 4 Demo.tree (lit "repo") [])
      as (Enough & _ & _).
    apply Enough. vm_compute. lia.
  - destruct (tree_one_line_per_entry ascii_lower 3 Demo.tree (lit "repo") [])
      as (_ & _ & Deep).
    apply Deep. vm_compute. lia.
Defined.

(** ** Building the tree *)

Lemma dict_get_app_new (d : dict) (k k' : pystr) (v : tree) :
  dict_get (d ++ [(k, v)]) k'
  = match dict_get d k' with
    | Some x => Some x
    | None => if str_eqb k' k then Some v else None
    end.
Proof.
  induction d as [|[k0 v0] d IH]; cbn; [reflexivity|].
  destruct (str_eqb k' k0); [reflexivity|exact IH].
Qed.

Lemma dict_get_set_same (d : dict) (k : pystr) (x v : tree) :
  dict_get d k = Some x -> dict_get (dict_set d k v) k = Some v.
Proof.
  induction d as [|[k0 v0] d IH]; cbn; [discriminate|].
  destruct (str_eqb k k0) eqn:E; cbn; rewrite E; [reflexivity|exact IH].
Qed.

Lemma dict_get_set_other (d : dict) (k k' : pystr) (v : tree) :
  str_eqb k' k = false -> dict_get (dict_set d k v) k' = dict_get d k'.
Proof.
  intros N. induction d as [|[k0 v0] d IH]; cbn; [reflexivity|].
  destruct (str_eqb k k0) eqn:E; cbn.
  - apply str_eqb_eq in E. subst k0. now rewrite N.
  - destruct (str_eqb k' k0); [reflexivity|exact IH].
Qed.

Lemma lookup_path_cons2 (a b : pystr) (q : list pystr) (node : dict) :
  lookup_path (a :: b :: q) node
  = match dict_get node a with
    | Some (Dir sub) => lookup_path (b :: q) sub
    | _ => None
    end.
Proof. reflexivity. Qed.

Lemma insert_parts_cons2 (a b : pystr) (rest : list pystr) (node : dict) :
  insert_parts (a :: b :: rest) node
  = match dict_get node a with
    | None =>
        sub <- insert_parts (b :: rest) [] ;;
        ret (node ++ [(a, Dir sub)])
    | Some (Dir sub) =>
        sub' <- insert_parts (b :: rest) sub ;;
        ret (dict_set node a (Dir sub'))
    | Some File =>
        raise (Raise AttributeError
                 (lit "'NoneType' object has no attribute 'setdefault'"))
    end.
Proof. reflexivity. Qed.

(** A dict that keeps every binding of another one keeps its paths. *)
Lemma lookup_path_kept (node node' : dict) (q : list pystr) (t : tree) :
  (forall k x, dict_get node k = Some x -> dict_get node' k = Some x) ->
  lookup_path q node = Some t -> lookup_path q node' = Some t.
Proof.
  intros K. destruct q as [|a [|b q]]; [discriminate| |].
  - cbn. apply K.
  - rewrite !lookup_path_cons2.
    destruct (dict_get node a) as [[|sub]|] eqn:G; try discriminate.
    now rewrite (K _ _ G).
Qed.

Lemma dict_get_kept_by_app (node : dict) (a : pystr) (v : tree) :
  forall k x, dict_get node k = Some x ->
              dict_get (node ++ [(a, v)]) k = Some x.
Proof. intros k x G. now rewrite dict_get_app_new, G. Qed.

Lemma insert_parts_preserves (parts : list pystr) :
  forall (node node' : dict) (q : list pystr) (t : tree),
    insert_parts parts node = ret node' ->
    lookup_path q node = Some t ->
    exists t', lookup_path q node' = Some t' /\ is_None t' = is_None t.
Proof.
  induction parts as [|part rest IH]; intros node node' q t I L.
  - cbn in I. injection I as <-. now exists t.
  - destruct rest as [|r rest].
    + cbn in I. destruct (dict_get node part) eqn:G; injection I as <-.
      * now exists t.
      * exists t. split; [|reflexivity].
        eapply lookup_path_kept; [apply dict_get_kept_by_app|exact L].
    + rewrite insert_parts_cons2 in I.
      destruct (dict_get node part) as [[|sub0]|] eqn:G.
      * discriminate I.
      * destruct (insert_parts (r :: rest) sub0) as [e|sub'] eqn:S;
          [discriminate I|]. cbn in I. injection I as <-.
        destruct q as [|a [|b q]]; [discriminate L| |].
        -- cbn in L |- *. destruct (str_eqb a part) eqn:E.
           ++ apply str_eqb_eq in E. subst a. rewrite G in L.
              injection L as <-.
              erewrite dict_get_set_same by exact G. now eexists.
           ++ rewrite dict_get_set_other by exact E. now exists t.
        -- rewrite lookup_path_cons2 in L |- *.
           destruct (str_eqb a part) eqn:E.
           ++ apply str_eqb_eq in E. subst a. rewrite G in L.
              erewrite dict_get_set_same by exact G.
              exact (IH _ _ _ _ S L).
           ++ rewrite dict_get_set_other by exact E. now exists t.
      * destruct (insert_parts (r :: rest) []) as [e|sub] eqn:S;
          [discriminate I|]. cbn in I. injection I as <-.
        exists t. split; [|reflexivity].
        eapply lookup_path_kept; [apply dict_get_kept_by_app|exact L].
Qed.

Lemma insert_parts_found (parts : list pystr) :
  forall node node' : dict,
    parts <> [] ->
    insert_parts parts node = ret node' ->
    exists t, lookup_path parts node' = Some t.
Proof.
  induction parts as [|part rest IH]; intros node node' N I; [congruence|].
  destruct rest as [|r rest].
  - cbn in I |- *. destruct (dict_get node part) eqn:G; injection I as <-.
    + exists t. exact G.
    + rewrite dict_get_app_new, G, str_eqb_refl. now eexists.
  - rewrite insert_parts_cons2 in I. rewrite lookup_path_cons2.
    destruct (dict_get node part) as [[|sub0]|] eqn:G.
    + discriminate I.
    + destruct (insert_parts (r :: rest) sub0) as [e|sub'] eqn:S;
        [discriminate I|]. cbn in I. injection I as <-.
      erewrite dict_get_set_same by exact G.
      apply (IH _ _ ltac:(discriminate) S).
    + destruct (insert_parts (r :: rest) []) as [e|sub] eqn:S;
        [discriminate I|]. cbn in I. injection I as <-.
      rewrite dict_get_app_new, G, str_eqb_refl.
      apply (IH _ _ ltac:(discriminate) S).
Qed.

Lemma build_loop_raised (paths : list pystr) (e : exn) :
  fold_left
    (fun (acc : result dict) (p : pystr) =>
       tree <- acc ;; insert_parts (split 47%N p) tree)
    paths (inl e) = inl e.
Proof. induction paths as [|p paths IH]; [reflexivity|exact IH]. Qed.

Lemma build_loop_contains (paths : list pystr) :
  forall acc tree : dict,
    fold_left
      (fun (acc : result dict) (p : pystr) =>
         tree <- acc ;; insert_parts (split 47%N p) tree)
      paths (ret acc) = ret tree ->
    (forall q t, lookup_path q acc = Some t ->
       exists t', lookup_path q tree = Some t' /\ is_None t' = is_None t)
    /\ (forall p, In p paths ->
          exists t, lookup_path (split 47%N p) tree = Some t).
Proof.
  induction paths as [|p paths IH]; intros acc tree H.
  - cbn in H. injection H as <-. split; [eauto|intros p []].
  - cbn [fold_left bind ret] in H.
    destruct (insert_parts (split 47%N p) acc) as [e|acc'] eqn:I.
    + rewrite build_loop_raised in H. discriminate H.
    + destruct (IH _ _ H) as [Keep Found]. split.
      * intros q t L.
        destruct (@insert_parts_preserves _ _ _ _ _ I L) as (t1 & L1 & N1).
        destruct (Keep _ _ L1) as (t2 & L2 & N2).
        exists t2. split; [exact L2|congruence].
      * intros p' [<-|In']; [|now apply Found].
        assert (N : split 47%N p <> [])
          by (destruct (split_cons 47%N p) as (h & tl & ->); discriminate).
        destruct (@insert_parts_found _ _ _ N I) as [t L].
        destruct (Keep _ _ L) as (t' & L' & _). now exists t'.
Qed.

(** X22.  When the tree is built, every tracked path can be followed
    through it, part by part, to an entry. *)
Theorem build_tree_contains_tracked (tracked : list pystr) (tree : dict)
    (p : pystr) :
  build_tree tracked = ret tree ->
  In p tracked ->
  exists t, lookup_path (split 47%N p) tree = Some t.
Proof.
  intros B I. unfold build_tree in B.
  apply build_loop_contains in B. destruct B as [_ Found].
  apply Found. exact I.
Qed.

Lemma build_tree_contains_tracked_witness :
  exists tree t,
    build_tree Demo.listing = ret tree
    /\ lookup_path [lit "src"; lit "lib"; lit "util.py"] tree = Some t.
Proof.
  destruct (build_tree Demo.listing) as [e|tree] eqn:B;
    [vm_compute in B; discriminate|].
  destruct (@build_tree_contains_tracked Demo.listing tree
              (lit "src/lib/util.py") B) as [t L].
  - unfold Demo.listing. cbn. auto 10.
  - exists tree, t. split; [reflexivity|exact L].
Defined.

(** X23.  Adding a path to a dict fails exactly when one of its proper
    leading parts is already bound to a file, and then with
    [AttributeError]. *)
Theorem insert_parts_fails_iff (parts : list pystr) (node : dict) :
  (forall e, insert_parts parts node = inl e -> exn_cls e = AttributeError)
  /\ ((exists e, insert_parts parts node = inl e)
      <-> exists pre post,
            parts = pre ++ post /\ pre <> [] /\ post <> []
            /\ lookup_path pre node = Some File).
Proof.
  split; [|split].
  - revert node. induction parts as [|part rest IH]; intros node e H;
      [discriminate H|].
    destruct rest as [|r rest].
    + cbn in H. destruct (dict_get node part); discriminate H.
    + rewrite insert_parts_cons2 in H.
      destruct (dict_get node part) as [[|sub0]|].
      * now injection H as <-.
      * destruct (insert_parts (r :: rest) sub0) as [e'|sub'] eqn:S;
          [|discriminate H]. injection H as <-. exact (IH _ _ S).
      * destruct (insert_parts (r :: rest) []) as [e'|sub] eqn:S;
          [|discriminate H]. injection H as <-. exact (IH _ _ S).
  - revert node. induction parts as [|part rest IH]; intros node [e H];
      [discriminate H|].
    destruct rest as [|r rest].
    + cbn in H. destruct (dict_get node part); discriminate H.
    + rewrite insert_parts_cons2 in H.
      destruct (dict_get node part) as [[|sub0]|] eqn:G.
      * exists [part], (r :: rest). repeat split; try discriminate.
        exact G.
      * destruct (insert_parts (r :: rest) sub0) as [e'|sub'] eqn:S;
          [|discriminate H].
        destruct (IH sub0 (ex_intro _ e' S))
          as (pre & post & E & Npre & Npost & L).
        exists (part :: pre), post. rewrite E.
        repeat split; try discriminate; auto.
        destruct pre as [|a pre]; [congruence|].
        rewrite lookup_path_cons2, G. exact L.
      * destruct (insert_parts (r :: rest) []) as [e'|sub] eqn:S;
          [|discriminate H].
        destruct (IH [] (ex_intro _ e' S))
          as (pre & post & _ & Npre & _ & L).
        destruct pre as [|a [|b pre]]; [congruence| |]; discriminate L.
  - intros (pre & post & -> & Npre & Npost & L).
    revert node L. induction pre as [|a pre IH]; intros node L;
      [congruence|].
    destruct pre as [|b pre].
    + destruct post as [|r post]; [congruence|].
      cbn [app]. rewrite insert_parts_cons2. cbn in L. rewrite L.
      now eexists.
    + rewrite lookup_path_cons2 in L.
      destruct (dict_get node a) as [[|sub0]|] eqn:G; try discriminate L.
      destruct (IH ltac:(discriminate) sub0 L) as [e S].
      cbn [app] in S |- *. rewrite insert_parts_cons2, G, S.
      now eexists.
Qed.

(** ** derive_temp_output_path *)

Lemma rstrip_snoc (c : char) (s : pystr) : rstrip c (s ++ [c]) = rstrip c s.
Proof.
  induction s as [|x s IH]; cbn.
  - unfold char_eqb. now rewrite N.eqb_refl.
  - now rewrite IH.
Qed.

Lemma rstrip_without_sep (c : char) (s : pystr) :
  forallb (fun x => negb (char_eqb x c)) s = true -> rstrip c s = s.
Proof.
  induction s as [|x s IH]; cbn; [reflexivity|].
  intros H. apply andb_true_iff in H. destruct H as [X H].
  rewrite (IH H). apply negb_true_iff in X. rewrite X.
  now destruct s.
Qed.

Lemma forallb_firstn (A : Type) (f : A -> bool) (n : nat) (l : list A) :
  forallb f l = true -> forallb f (firstn n l) = true.
Proof.
  revert n. induction l as [|x l IH]; intros [|n]; cbn; auto.
  intros H. apply andb_true_iff in H. destruct H as [-> H]. now apply IH.
Qed.

Lemma last_part_without_sep (sep : char) (s : pystr) :
  forallb (fun c => negb (char_eqb c sep)) (last (split sep s) []) = true.
Proof.
  pose proof (split_parts_without_sep sep s) as F.
  induction (split sep s) as [|h t IH]; [reflexivity|].
  inversion F; subst. destruct t; [assumption|]. now apply IH.
Qed.

Lemma single_part_path (root : Path) (name : pystr) :
  forallb (fun c => negb (char_eqb c 47%N)) name = true ->
  4 <= List.length name ->
  path_div root name = root ++ [name].
Proof.
  intros S L.
  assert (E1 : str_eqb name [] = false)
    by (destruct name; [cbn in L; lia|reflexivity]).
  assert (E2 : str_eqb name (lit ".") = false).
  { destruct (str_eqb name (lit ".")) eqn:E; [|reflexivity].
    apply str_eqb_eq in E. subst name. cbn in L. lia. }
  rewrite path_div_normal; rewrite (split_without_sep _ _ S);
    [reflexivity|].
  cbn [forallb]. now rewrite E1, E2.
Qed.

(** X24.  Whenever [derive_temp_output_path] returns, the path is a file
    directly inside the temporary directory: its name is the repository
    name, which holds no slash, followed by [.txt] for the corpus and
    [.html] otherwise.  It returns for every source that [is_dir] takes
    for no directory, provided the temporary directory is found, and it
    raises what [is_dir] raises. *)
Theorem derive_temp_output_path_in_tempdir
    (is_dir : pystr -> result bool) (resolved_name : pystr -> result pystr)
    (gettempdir : result Path) (repo_url : pystr) (for_llm : bool) :
  (forall name, resolved_name repo_url = ret name ->
     forallb (fun c => negb (char_eqb c 47%N)) name = true) ->
  let run :=
    derive_temp_output_path is_dir resolved_name gettempdir repo_url
      for_llm in
  let suffix := if for_llm then lit ".txt" else lit ".html" in
  (forall out, run = ret out ->
     exists tempdir repo_name,
       gettempdir = ret tempdir
       /\ out = tempdir ++ [repo_name ++ suffix]
       /\ forallb (fun c => negb (char_eqb c 47%N)) repo_name = true)
  /\ (forall tempdir,
        is_dir repo_url = ret false -> gettempdir = ret tempdir ->
        exists repo_name,
          run = ret (tempdir ++ [repo_name ++ suffix])
          /\ forallb (fun c => negb (char_eqb c 47%N)) repo_name = true)
  /\ (forall e, is_dir repo_url = inl e -> run = inl e).
Proof.
  intros R run suffix.
  assert (Name : forall repo_name tempdir,
    forallb (fun c => negb (char_eqb c 47%N)) repo_name = true ->
    path_div tempdir (repo_name ++ suffix) = tempdir ++ [repo_name ++ suffix]).
  { intros repo_name tempdir N. apply single_part_path.
    - rewrite forallb_app, N. unfold suffix. now destruct for_llm.
    - rewrite length_app. unfold suffix. destruct for_llm; cbn; lia. }
  assert (Url : forallb (fun c => negb (char_eqb c 47%N))
                  (if Nat.leb 2
                        (List.length (split 47%N (rstrip 47%N repo_url)))
                   then removesuffix (lit ".git")
                          (last (split 47%N (rstrip 47%N repo_url)) [])
                   else lit "repo") = true).
  { destruct (Nat.leb 2 _); [|reflexivity].
    unfold removesuffix. destruct (endswith _ _).
    - apply forallb_firstn, last_part_without_sep.
    - apply last_part_without_sep. }
  unfold run, derive_temp_output_path. split; [|split].
  - intros out H.
    destruct (is_dir repo_url) as [e|[|]]; cbn [bind ret] in H;
      [discriminate H| |].
    + destruct (resolved_name repo_url) as [e|name] eqn:Rn;
        cbn [bind ret] in H; [discriminate H|].
      destruct gettempdir as [e|tempdir]; cbn [bind ret] in H;
        [discriminate H|].
      injection H as <-. exists tempdir, name.
      split; [reflexivity|]. split; [|now apply R].
      apply Name. now apply R.
    + destruct gettempdir as [e|tempdir]; cbn [bind ret] in H;
        [discriminate H|].
      injection H as <-. eexists tempdir, _.
      split; [reflexivity|]. split; [|exact Url].
      apply Name. exact Url.
  - intros tempdir D T. rewrite D, T. cbn [bind ret].
    eexists. split; [|exact Url]. f_equal. apply Name. exact Url.
  - intros e D. now rewrite D.
Qed.

Lemma derive_temp_output_path_in_tempdir_witness :
  (exists repo_name,
     derive_temp_output_path (fun _ => ret false) (fun _ => ret [])
       (ret [lit "tmp"]) (lit "https://github.com/owner/repo.git") false
     = ret ([lit "tmp"] ++ [repo_name ++ lit ".html"])
     /\ forallb (fun c => negb (char_eqb c 47%N)) repo_name = true)
  /\ derive_temp_output_path
       (fun _ => raise (Raise OSError (lit "[Errno 36] File name too long")))
       (fun _ => ret []) (ret [lit "tmp"])
       (lit "https://github.com/owner/repo.git") false
     = raise (Raise OSError (lit "[Errno 36] File name too long")).
Proof.
  split.
  - destruct (@derive_temp_output_path_in_tempdir (fun _ => ret false)
                (fun _ => ret []) (ret [lit "tmp"])
                (lit "https://github.com/owner/repo.git") false)
      as (_ & Returns & _).
    + intros name [= <-]. reflexivity.
    + exact (Returns [lit "tmp"] eq_refl eq_refl).
  - apply (@derive_temp_output_path_in_tempdir
             (fun _ => raise (Raise OSError
                                (lit "[Errno 36] File name too long")))
             (fun _ => ret []) (ret [lit "tmp"])
             (lit "https://github.com/owner/repo.git") false).
    + intros name [= <-]. reflexivity.
    + reflexivity.
Defined.

(** X25.  For a source that is not a local directory a trailing slash
    makes no difference to the derived path. *)
Theorem derive_temp_output_path_trailing_slash
    (is_dir : pystr -> result bool) (resolved_name : pystr -> result pystr)
    (gettempdir : result Path) (repo_url : pystr) (for_llm : bool) :
  is_dir repo_url = ret false ->
  is_dir (repo_url ++ lit "/") = ret false ->
  derive_temp_output_path is_dir resolved_name gettempdir
    (repo_url ++ lit "/") for_llm
  = derive_temp_output_path is_dir resolved_name gettempdir repo_url for_llm.
Proof.
  intros D D'. unfold derive_temp_output_path. rewrite D, D'.
  change (lit "/") with [47%N]. now rewrite rstrip_snoc.
Qed.

Lemma derive_temp_output_path_trailing_slash_witness :
  derive_temp_output_path (fun _ => ret false) (fun _ => ret [])
    (ret [lit "tmp"]) (lit "https://example.org/team/tool/") true
  = ret [lit "tmp"; lit "tool.txt"].
Proof.
  change (lit "https://example.org/team/tool/")
    with (lit "https://example.org/team/tool" ++ lit "/").
  rewrite derive_temp_output_path_trailing_slash; reflexivity.
Defined.

(** X26.  A source without any slash that is not a local directory gets
    the fallback name [repo]. *)
Theorem derive_temp_output_path_fallback_name
    (is_dir : pystr -> result bool) (resolved_name : pystr -> result pystr)
    (gettempdir : result Path) (repo_url : pystr) (for_llm : bool) :
  is_dir repo_url = ret false ->
  forallb (fun c => negb (char_eqb c 47%N)) repo_url = true ->
  derive_temp_output_path is_dir resolved_name gettempdir repo_url for_llm
  = (tempdir <- gettempdir ;;
     ret (tempdir
          ++ [lit "repo" ++ (if for_llm then lit ".txt" else lit ".html")])).
Proof.
  intros D S. unfold derive_temp_output_path.
  rewrite D, (rstrip_without_sep _ _ S), (split_without_sep _ _ S).
  cbn [List.length Nat.leb bind ret].
  destruct gettempdir as [e|tempdir]; cbn [bind ret]; [reflexivity|].
  f_equal. apply single_part_path.
  - now destruct for_llm.
  - destruct for_llm; cbn; lia.
Qed.

Lemma derive_temp_output_path_fallback_name_witness :
  derive_temp_output_path (fun _ => ret false) (fun _ => ret [])
    (ret [lit "tmp"]) (lit "project.git") false
  = ret [lit "tmp"; lit "repo.html"].
Proof.
  rewrite derive_temp_output_path_fallback_name; reflexivity.
Defined.

(** The string helpers of [derive_temp_output_path] on sample inputs. *)
Example url_helpers :
  rstrip 47%N (lit "https://host/a/b//") = lit "https://host/a/b"
  /\ rstrip 47%N (lit "//") = []
  /\ removesuffix (lit ".git") (lit "repo.git") = lit "repo"
  /\ removesuffix (lit ".git") (lit "repo.github") = lit "repo.github"
  /\ removesuffix (lit ".git") (lit "git") = lit "git"
  /\ split 47%N (lit "a//b") = [lit "a"; []; lit "b"].
Proof. repeat split. Qed.

(** ** The sections and skip lists of build_html *)

Section HtmlFacts.

Variable isalnum : char -> bool.
Variable lower : pystr -> pystr.
Variable suffix : Path -> pystr.
Variable decode_replace : bytes -> pystr.
Variable html_escape : pystr -> pystr.
Variable bytes_human : Z -> pystr.
Variable lexer : Type.
Variable get_lexer_for_filename : pystr -> result lexer.
Variable TextLexer : lexer.
Variable MarkdownLexer : result lexer.
Variable highlight : pystr -> lexer -> result pystr.

Lemma render_body_returns (fs : FileSystem) (i : FileInfo) :
  exists body,
    render_body lower suffix decode_replace html_escape
      get_lexer_for_filename TextLexer MarkdownLexer highlight fs i
    = ret body.
Proof.
  unfold render_body.
  match goal with
  | |- exists body, try_except ?b _ _ = _ => destruct b as [e|body]
  end; cbn [try_except any_Exception]; eexists; reflexivity.
Qed.

(** X27.  Computing the body of a section never raises: the body is the
    highlighted text or an error block.  A file that cannot be read gets
    the error block with the message of the failure, and a file for
    which no lexer is found is highlighted with the plain-text lexer. *)
Theorem render_body_isolates_failures (fs : FileSystem) (i : FileInfo) :
  exists body,
    render_body lower suffix decode_replace html_escape
      get_lexer_for_filename TextLexer MarkdownLexer highlight fs i
    = ret body
    /\ ((exists e, body = error_block html_escape e)
        \/ exists code_html, body = highlight_div code_html)
    /\ (forall e, fs_read fs (path i) = inl e ->
          body = error_block html_escape e)
    /\ (forall data e code_html,
          fs_read fs (path i) = ret data ->
          in_set (lower (suffix (path i))) MARKDOWN_EXTENSIONS = false ->
          get_lexer_for_filename (rel i) = inl e ->
          highlight (decode_replace data) TextLexer = ret code_html ->
          body = highlight_div code_html).
Proof.
  unfold render_body, read_text, highlight_code.
  destruct (fs_read fs (path i)) as [e|data]; cbn [bind ret try_except any_Exception].
  { eexists. split; [reflexivity|]. split; [left; now eexists|].
    split; [now intros e' [= <-]|discriminate]. }
  destruct (in_set _ MARKDOWN_EXTENSIONS).
  - destruct MarkdownLexer as [e|lx]; cbn [bind ret try_except any_Exception].
    { eexists. split; [reflexivity|]. split; [left; now eexists|].
      split; discriminate. }
    destruct (highlight (decode_replace data) lx) as [e|code]; cbn [bind ret try_except any_Exception];
      eexists; (split; [reflexivity|]);
      (split; [(left; now eexists) || (right; now eexists)|]);
      split; discriminate.
  - destruct (get_lexer_for_filename (rel i)) as [e|lx]; cbn [bind ret try_except any_Exception].
    + destruct (highlight (decode_replace data) TextLexer) as [e'|code] eqn:H;
        cbn [bind ret try_except any_Exception]; eexists; (split; [reflexivity|]);
        (split; [(left; now eexists) || (right; now eexists)|]);
        (split; [discriminate|]);
        intros d e0 c [= <-] _ _ H'; rewrite H in H'; now inversion H'.
    + destruct (highlight (decode_replace data) lx) as [e'|code]; cbn [bind ret try_except any_Exception];
        eexists; (split; [reflexivity|]);
        (split; [(left; now eexists) || (right; now eexists)|]);
        (split; [discriminate|]); intros d e0 c _ _ L; discriminate L.
Qed.

(** X28.  The sections are built one per record marked for inclusion, in
    order, each from the body computed for that record; building them
    never raises. *)
Theorem build_html_sections_one_per_record (fs : FileSystem)
    (infos : list FileInfo) :
  exists sections,
    build_html_sections isalnum lower suffix decode_replace html_escape
      bytes_human get_lexer_for_filename TextLexer MarkdownLexer highlight
      fs infos = ret sections
    /\ Forall2
         (fun i s =>
            exists body,
              render_body lower suffix decode_replace html_escape
                get_lexer_for_filename TextLexer MarkdownLexer highlight fs i
              = ret body
              /\ s = section_html isalnum html_escape bytes_human i body)
         (filter (fun i => include (decision i)) infos) sections.
Proof.
  unfold build_html_sections.
  generalize (filter (fun i => include (decision i)) infos) as l.
  assert (G : forall (l : list FileInfo) (acc : list pystr),
    exists new,
      fold_left
        (fun (acc : result (list pystr)) (i : FileInfo) =>
           sections <- acc ;;
           body_html <-
             render_body lower suffix decode_replace html_escape
               get_lexer_for_filename TextLexer MarkdownLexer highlight fs i ;;
           ret (sections
                ++ [section_html isalnum html_escape bytes_human i body_html]))
        l (ret acc) = ret (acc ++ new)
      /\ Forall2
           (fun i s =>
              exists body,
                render_body lower suffix decode_replace html_escape
                  get_lexer_for_filename TextLexer MarkdownLexer highlight
                  fs i = ret body
                /\ s = section_html isalnum html_escape bytes_human i body)
           l new).
  { induction l as [|i l IH]; intros acc.
    - exists []. cbn. rewrite app_nil_r. split; [reflexivity|constructor].
    - destruct (render_body_returns fs i) as (body & B).
      cbn [fold_left bind ret]. rewrite B. cbn [bind ret].
      destruct (IH (acc ++ [section_html isalnum html_escape bytes_human
                              i body])) as (new & F & A).
      exists (section_html isalnum html_escape bytes_human i body :: new).
      rewrite F, <- app_assoc. split; [reflexivity|].
      constructor; [now exists body|exact A]. }
  intros l. destruct (G l []) as (new & F & A). now exists new.
Qed.

Lemma filter_filter_implied (A : Type) (f g : A -> bool) (l : list A) :
  (forall x, f x = true -> g x = true) ->
  filter f (filter g l) = filter f l.
Proof.
  intros I. induction l as [|x l IH]; [reflexivity|]. cbn.
  destruct (g x) eqn:G; cbn; [now rewrite IH|].
  destruct (f x) eqn:F; [|exact IH].
  rewrite (I x F) in G. discriminate.
Qed.

(** X29.  The skip lists are empty text exactly when no record is binary
    and none is too large.  Records with any other reason never show up
    in them: the text is the same when those records are left out, and
    a record whose reason is [ignored] is among them. *)
Theorem build_html_skipped_empty_iff (infos : list FileInfo) :
  (build_html_skipped html_escape bytes_human infos = []
   <-> filter (fun i => str_eqb (reason (decision i)) (lit "binary")) infos
       = []
       /\ filter (fun i => str_eqb (reason (decision i)) (lit "too_large"))
            infos = [])
  /\ build_html_skipped html_escape bytes_human infos
     = build_html_skipped html_escape bytes_human
         (filter (fun i => str_eqb (reason (decision i)) (lit "binary")
                           || str_eqb (reason (decision i)) (lit "too_large"))
            infos)
  /\ build_html_skipped html_escape bytes_human infos
     = build_html_skipped html_escape bytes_human
         (filter (fun i => negb (str_eqb (reason (decision i))
                                   (lit "ignored"))) infos).
Proof.
  split; [|split].
  2: { unfold build_html_skipped. cbv zeta.
       rewrite !filter_filter_implied; [reflexivity| |];
         intros x ->; [apply orb_true_r|reflexivity]. }
  2: { unfold build_html_skipped. cbv zeta.
       rewrite !filter_filter_implied; [reflexivity| |];
         intros x E; apply str_eqb_eq in E; now rewrite E. }
  unfold build_html_skipped, render_skip_list. split.
  - intros H.
    destruct (filter (fun i => str_eqb (reason (decision i)) (lit "binary"))
                infos); [|discriminate H].
    destruct (filter
                (fun i => str_eqb (reason (decision i)) (lit "too_large"))
                infos); [|discriminate H].
    split; reflexivity.
  - intros [-> ->]. reflexivity.
Qed.

End HtmlFacts.

Lemma render_body_isolates_failures_witness :
  render_body ascii_lower Demo.suffix Demo.decode_replace (fun s => s)
    (fun _ : pystr => Demo.denied) tt (ret tt)
    (fun (text : pystr) (_ : unit) => ret text) Demo.fs
    (Build_FileInfo (path_div Demo.repo_root (lit "README.md"))
       (lit "README.md") 5 ok_decision)
  = ret (highlight_div (lit "# hi" ++ [10%N]))
  /\ render_body ascii_lower Demo.suffix Demo.decode_replace (fun s => s)
       (fun _ : pystr => Demo.denied) tt (ret tt)
       (fun (text : pystr) (_ : unit) => ret text) Demo.fs
       (Build_FileInfo (path_div Demo.repo_root (lit "locked.txt"))
          (lit "locked.txt") 7 ok_decision)
     = ret (error_block (fun s => s)
              (Raise PermissionError (lit "[Errno 13] Permission denied"))).
Proof.
  split; [reflexivity|].
  destruct (render_body_isolates_failures ascii_lower Demo.suffix
              Demo.decode_replace (fun s => s)
              (fun _ : pystr => Demo.denied) tt (ret tt)
              (fun (text : pystr) (_ : unit) => ret text) Demo.fs
              (Build_FileInfo (path_div Demo.repo_root (lit "locked.txt"))
                 (lit "locked.txt") 7 ok_decision))
    as (body & -> & _ & Unreadable & _).
  f_equal. apply Unreadable. reflexivity.
Defined.
